(** * Query classification and rate limiting of the assistant backend

    A shallow embedding of [src/services/aiService.js] (FAQ matcher,
    navigation keyword matcher, AI fallback, [detectNavigation]) and of the
    rate limiter middleware ([rateLimiter], [getRateLimitStatus], the hourly
    sweep, load and save of the durable file), followed by the properties
    proved about them.

    Conventions of the embedding.
    - A JavaScript string is a [string] whose characters are the code units
      0..255 (the Latin-1 part of UTF-16).  [toLowerCase], [trim] and the
      class [\s] are written out for exactly that range; text with code
      units above 255 is outside the model.
    - A JavaScript number that holds a counter, a score or a time stamp in
      milliseconds is a [Z].  A [Date] is the [Z] of its epoch milliseconds;
      all time stamps are taken inside the range in which a [Date] is
      valid and in which the arithmetic of doubles on integers is exact.
    - The two data files [faq.json] and [siteMap.json] are not part of the
      sources; the functions that read them take their contents as
      arguments ([faqs], [siteMap]). *)

From Stdlib Require Import ZArith NArith Bool List Ascii String Lia.
From stdpp Require Import base option list strings gmap fin_maps.
Import ListNotations.

Local Open Scope string_scope.
Local Open Scope Z_scope.

(** ** String primitives of the host language *)

Module JS.

(** [WhiteSpace] and [LineTerminator] code units below 256: TAB, LF, VT,
    FF, CR, SPACE and NO-BREAK SPACE.  Both [String.prototype.trim] and
    the regular expression class [\s] use this set. *)
Definition isWhiteSpace (c : ascii) : bool :=
  let n := N_of_ascii c in
  (((9 <=? n) && (n <=? 13)) || (n =? 32) || (n =? 160))%N.

(** One character of [toLowerCase]: A..Z and the accented capitals
    U+00C0..U+00DE (without the multiplication sign U+00D7) move up by
    32; every other code unit below 256 is its own lower case. *)
Definition lowerChar (c : ascii) : ascii :=
  let n := N_of_ascii c in
  if (((65 <=? n) && (n <=? 90))
      || ((192 <=? n) && (n <=? 222) && negb (n =? 215)))%N
  then ascii_of_N (n + 32) else c.

Fixpoint toLowerCase (s : string) : string :=
  match s with
  | EmptyString => EmptyString
  | String c s' => String (lowerChar c) (toLowerCase s')
  end.

Fixpoint trimStart (s : string) : string :=
  match s with
  | EmptyString => EmptyString
  | String c s' => if isWhiteSpace c then trimStart s' else s
  end.

Fixpoint trimEnd (s : string) : string :=
  match s with
  | EmptyString => EmptyString
  | String c s' =>
      match trimEnd s' with
      | EmptyString => if isWhiteSpace c then EmptyString else String c EmptyString
      | t => String c t
      end
  end.

Definition trim (s : string) : string := trimEnd (trimStart s).

Definition startsWithWhiteSpace (s : string) : bool :=
  match s with
  | EmptyString => false
  | String c _ => isWhiteSpace c
  end.

(** [s.split(/\s+/)]: the pieces between maximal runs of white space.  A
    run at the very start or the very end leaves an empty piece there,
    and the empty string splits into one empty piece.  The head of the
    result is the piece under construction. *)
Fixpoint split (s : string) : list string :=
  match s with
  | EmptyString => [EmptyString]
  | String c s' =>
      if isWhiteSpace c then
        if startsWithWhiteSpace s' then split s' else EmptyString :: split s'
      else
        match split s' with
        | t :: ts => String c t :: ts
        | [] => [String c EmptyString]
        end
  end.

(** [s.includes(t)]: [t] occurs in [s] as a contiguous substring. *)
Fixpoint includes (s t : string) : bool :=
  String.prefix t s
  || match s with
     | EmptyString => false
     | String _ s' => includes s' t
     end.

(** [arr.includes(w)] on an array of strings. *)
Definition arrayIncludes (arr : list string) (w : string) : bool :=
  existsb (String.eqb w) arr.

End JS.

(** ** [src/services/aiService.js] *)

Module AiService.

(** *** Data model of the matchers *)

(** An entry of [faqData.faqs]. *)
Record FaqEntry := mkFaqEntry {
  faq_id : string;
  faq_question : string;
  faq_answer : string;
  faq_category : string;
  faq_keywords : list string
}.

(** An entry of [siteMap]. *)
Record NavItem := mkNavItem {
  nav_url : string;
  nav_intent : string;
  nav_keywords : list string
}.

(** [{...faq, matched: true, score, matchedKeywords}]. *)
Record FaqMatch := mkFaqMatch {
  fm_faq : FaqEntry;
  fm_matched : bool;
  fm_score : Z;
  fm_matchedKeywords : list string
}.

(** [{url, intent, matched: true, score, matchedKeywords}]. *)
Record NavMatch := mkNavMatch {
  nm_url : string;
  nm_intent : string;
  nm_matched : bool;
  nm_score : Z;
  nm_matchedKeywords : list string
}.

(** *** The lexical matchers *)

Definition stopWordsFAQ : list string :=
  ["uchun"; "bilan"; "dan"; "ga"; "ni"; "ning"; "lar"; "chi"; "nima"; "qanday"].

Definition stopWordsNav : list string :=
  ["uchun"; "bilan"; "dan"; "ga"; "ni"; "ning"; "lar"; "chi"].

(** [q.split(/\s+/).filter(word => word.length > 2 && !stopWords.includes(word))] *)
Definition contentWords (stopWords : list string) (q : string) : list string :=
  List.filter
    (fun word => (2 <? String.length word)%nat && negb (JS.arrayIncludes stopWords word))
    (JS.split q).

(** [queryWords.some(qw => qw.includes(kw) || kw.includes(qw))] *)
Definition someWordMatches (queryWords : list string) (kw : string) : bool :=
  existsb (fun qw => JS.includes qw kw || JS.includes kw qw) queryWords.

(** The body of the loop [for (const keyword of item.keywords)], which is
    the same text in [matchFAQ] and in [keywordMatch].  The loop state is
    the pair of [score] and [matchedKeywords]. *)
Definition keywordStep (q : string) (queryWords : list string)
    (acc : Z * list string) (keyword : string) : Z * list string :=
  let '(score, matchedKeywords) := acc in
  let keywordLower := JS.toLowerCase keyword in
  if String.eqb q keywordLower then
    (score + 100, (matchedKeywords ++ [keyword])%list)
  else if JS.includes q keywordLower || JS.includes keywordLower q then
    (score + 50, (matchedKeywords ++ [keyword])%list)
  else
    let keywordWords := JS.split keywordLower in
    let allWordsMatch := forallb (someWordMatches queryWords) keywordWords in
    if allWordsMatch && (1 <? length keywordWords)%nat then
      (score + 30 * Z.of_nat (length keywordWords), (matchedKeywords ++ [keyword])%list)
    else if (length keywordWords =? 1)%nat
            && someWordMatches queryWords (nth 0 keywordWords EmptyString) then
      (score + 10, (matchedKeywords ++ [keyword])%list)
    else
      (score, matchedKeywords).

(** The whole keyword loop of one item, started at [score = 0] and
    [matchedKeywords = []]. *)
Definition scoreKeywords (q : string) (queryWords : list string)
    (keywords : list string) : Z * list string :=
  fold_left (keywordStep q queryWords) keywords (0, []).

(** Body of [for (const faq of faqData.faqs)] in [matchFAQ]; the loop state
    is [(bestMatch, highestScore)]. *)
Definition faqStep (q : string) (queryWords : list string)
    (st : option FaqMatch * Z) (faq : FaqEntry) : option FaqMatch * Z :=
  let '(bestMatch, highestScore) := st in
  let '(score, matchedKeywords) := scoreKeywords q queryWords (faq_keywords faq) in
  if (highestScore <? score) && (10 <=? score) then
    (Some (mkFaqMatch faq true score matchedKeywords), score)
  else (bestMatch, highestScore).

Definition matchFAQ (faqs : list FaqEntry) (query : string) : option FaqMatch :=
  let q := JS.trim (JS.toLowerCase query) in
  let queryWords := contentWords stopWordsFAQ q in
  fst (fold_left (faqStep q queryWords) faqs (None, 0)).

(** Body of [for (const item of siteMap)] in [keywordMatch]. *)
Definition navStep (q : string) (queryWords : list string)
    (st : option NavMatch * Z) (item : NavItem) : option NavMatch * Z :=
  let '(bestMatch, highestScore) := st in
  let '(score, matchedKeywords) := scoreKeywords q queryWords (nav_keywords item) in
  if (highestScore <? score) && (0 <? score) then
    (Some (mkNavMatch (nav_url item) (nav_intent item) true score matchedKeywords), score)
  else (bestMatch, highestScore).

Definition keywordMatch (siteMap : list NavItem) (query : string) : option NavMatch :=
  let q := JS.trim (JS.toLowerCase query) in
  let queryWords := contentWords stopWordsNav q in
  let '(bestMatch, highestScore) := fold_left (navStep q queryWords) siteMap (None, 0) in
  match bestMatch with
  | Some m => if 10 <=? highestScore then Some m else None
  | None => None
  end.

(** *** The AI fallback and the orchestrator

    [aiMatch] awaits the hosted chat-completion service and
    [detectNavigation] calls the three stages in turn.  Their effects are an
    external reply, exceptions caught by [try]/[catch], and the order in
    which the stage functions are entered.  They are written in a small
    monad: a computation reads the reply of the service from an oracle,
    appends to a log of entered stages and ends in a value or in a thrown
    error.  The log is ghost state: it only records which stage functions
    the control flow reaches. *)

Inductive Stage := StageFAQ | StageKeyword | StageAI.

(** What [aiMatch] sends: the raw query and, per site-map entry, its
    position [idx + 1], intent, url and [keywords.slice(0, 5)].  The prompt
    text is a fixed template around these values. *)
Record ChatRequest := mkChatRequest {
  cr_query : string;
  cr_sections : list (nat * string * string * list string)
}.

(** Outcome of [await openai.chat.completions.create(...)] followed by
    [response.choices[0].message.content]: the promise rejects, or it
    resolves; a resolved response without a readable string there
    ([content = None]) makes the [.trim()] call throw a TypeError. *)
Inductive Completion :=
| Rejected (reason : string)
| Resolved (content : option string).

Inductive Result (A : Type) :=
| Ok (a : A)
| Thrown (error : string).
Arguments Ok {A} a.
Arguments Thrown {A} error.

Definition M (A : Type) : Type :=
  (ChatRequest -> Completion) -> list Stage -> Result A * list Stage.

Definition ret {A} (a : A) : M A := fun _ log => (Ok a, log).

Definition bind {A B} (c : M A) (k : A -> M B) : M B :=
  fun oracle log =>
    match c oracle log with
    | (Ok a, log') => k a oracle log'
    | (Thrown e, log') => (Thrown e, log')
    end.

Definition throw {A} (e : string) : M A := fun _ log => (Thrown e, log).

(** [try { body } catch (error) { handler }] *)
Definition tryCatch {A} (body : M A) (handler : string -> M A) : M A :=
  fun oracle log =>
    match body oracle log with
    | (Ok a, log') => (Ok a, log')
    | (Thrown e, log') => handler e oracle log'
    end.

(** Entering a stage function. *)
Definition enter (s : Stage) : M unit := fun _ log => (Ok tt, (log ++ [s])%list).

(** A call of a synchronous stage function with result [v]. *)
Definition invoke {A} (s : Stage) (v : A) : M A :=
  bind (enter s) (fun _ => ret v).

Local Notation "'let!' x ':=' c 'in' k" := (bind c (fun x => k))
  (at level 10, x name, c at level 100, k at level 200).

(** The reply of the service to a request. *)
Definition await (req : ChatRequest) : M Completion :=
  fun oracle log => (Ok (oracle req), log).

(** [await openai.chat.completions.create(...)] and the read of
    [response.choices[0].message.content]. *)
Definition chatCompletionContent (req : ChatRequest) : M string :=
  let! reply := await req in
  match reply with
  | Rejected reason => throw reason
  | Resolved (Some content) => ret content
  | Resolved None => throw "TypeError"
  end.

(** [{url, intent, matched}] as returned by [aiMatch]; [intent] is absent
    on the not-found value. *)
Record AiResult := mkAiResult {
  ai_url : string;
  ai_intent : option string;
  ai_matched : bool
}.

Definition aiNotFound : AiResult := mkAiResult "NOT_FOUND" None false.

Fixpoint sectionsFrom (idx : nat) (siteMap : list NavItem)
    : list (nat * string * string * list string) :=
  match siteMap with
  | [] => []
  | item :: rest =>
      (S idx, nav_intent item, nav_url item, firstn 5 (nav_keywords item))
        :: sectionsFrom (S idx) rest
  end.

Definition aiMatch (siteMap : list NavItem) (query : string) : M AiResult :=
  let! _ := enter StageAI in
  let sections := sectionsFrom 0 siteMap in
  tryCatch
    (let! content := chatCompletionContent (mkChatRequest query sections) in
     let text := JS.trim content in
     if String.eqb text "NOT_FOUND" then ret aiNotFound
     else
       match List.find (fun item => String.eqb (nav_url item) text) siteMap with
       | None => ret aiNotFound
       | Some foundItem => ret (mkAiResult text (Some (nav_intent foundItem)) true)
       end)
    (fun error => ret aiNotFound).

(** The value of [detectNavigation].  [FAQ faq] is
    [{type: "FAQ", matched: true, faq}]; [NAVIGATION url intent lexical] is
    [{type: "NAVIGATION", ...result}] with [matched: true], where [lexical]
    holds [score] and [matchedKeywords] when the spread object is a keyword
    match and is absent when it is the AI result; [NOT_FOUND] is
    [{type: "NOT_FOUND", matched: false}]. *)
Inductive Decision :=
| FAQ (faq : FaqMatch)
| NAVIGATION (url : string) (intent : option string) (lexical : option (Z * list string))
| NOT_FOUND.

Definition detectNavigation (faqs : list FaqEntry) (siteMap : list NavItem)
    (query : string) : M Decision :=
  let! faqResult := invoke StageFAQ (matchFAQ faqs query) in
  match faqResult with
  | Some faq => ret (FAQ faq)
  | None =>
      let! keywordResult := invoke StageKeyword (keywordMatch siteMap query) in
      match keywordResult with
      | Some m =>
          ret (NAVIGATION (nm_url m) (Some (nm_intent m))
                 (Some (nm_score m, nm_matchedKeywords m)))
      | None =>
          let! aiResult := aiMatch siteMap query in
          if ai_matched aiResult
          then ret (NAVIGATION (ai_url aiResult) (ai_intent aiResult) None)
          else ret NOT_FOUND
      end
  end.

(** Running an orchestration from an empty stage log. *)
Definition run {A} (c : M A) (oracle : ChatRequest -> Completion)
    : Result A * list Stage :=
  c oracle [].

(** *** Vocabulary of the statements about the matchers *)

(** Both item loops keep the pair [(bestMatch, highestScore)] and replace
    it when the score of the current item is above [highestScore] and
    reaches a floor: 10 in [matchFAQ], 1 (that is, [score > 0]) in
    [keywordMatch].  [pick] is that loop body over any score function. *)
Definition pick {Item Match : Type} (total : Item -> Z) (make : Item -> Match)
    (floor : Z) (st : option Match * Z) (item : Item) : option Match * Z :=
  if (snd st <? total item) && (floor <=? total item)
  then (Some (make item), total item)
  else st.

(** What the loop state says about the items seen so far. *)
Definition firstBest {Item Match : Type} (total : Item -> Z) (make : Item -> Match)
    (floor : Z) (items : list Item) (st : option Match * Z) : Prop :=
  match fst st with
  | None =>
      snd st = 0 /\ forall j it, items !! j = Some it -> total it < floor
  | Some m =>
      exists i it,
        items !! i = Some it /\ m = make it /\ snd st = total it
        /\ floor <= total it
        /\ (forall j it', items !! j = Some it' -> total it' <= total it)
        /\ (forall j it', (j < i)%nat -> items !! j = Some it' -> total it' < total it)
  end.

(** The query as both matchers see it: [query.toLowerCase().trim()]. *)
Definition normalized (query : string) : string :=
  JS.trim (JS.toLowerCase query).

(** The total score an item gets from the FAQ loop and from the
    navigation loop, as functions of the query and the keyword list. *)
Definition faqScore (query : string) (keywords : list string) : Z :=
  fst (scoreKeywords (normalized query)
         (contentWords stopWordsFAQ (normalized query)) keywords).

Definition navScore (query : string) (keywords : list string) : Z :=
  fst (scoreKeywords (normalized query)
         (contentWords stopWordsNav (normalized query)) keywords).

Definition faqMake (query : string) (faq : FaqEntry) : FaqMatch :=
  let r := scoreKeywords (normalized query)
             (contentWords stopWordsFAQ (normalized query)) (faq_keywords faq) in
  mkFaqMatch faq true (fst r) (snd r).

Definition navMake (query : string) (item : NavItem) : NavMatch :=
  let r := scoreKeywords (normalized query)
             (contentWords stopWordsNav (normalized query)) (nav_keywords item) in
  mkNavMatch (nav_url item) (nav_intent item) true (fst r) (snd r).

(** What it means for a matcher result to be the first item of highest
    total score, at a threshold of 10. *)
Definition selectsFirstHighest {Item Match : Type}
    (total : Item -> Z) (itemOf : Match -> Item -> Prop) (scoreOf : Match -> Z)
    (items : list Item) (result : option Match) : Prop :=
  match result with
  | None => forall j it, items !! j = Some it -> total it < 10
  | Some m =>
      exists i it,
        items !! i = Some it /\ itemOf m it /\ scoreOf m = total it
        /\ 10 <= scoreOf m
        /\ (forall j it', items !! j = Some it' -> total it' <= scoreOf m)
        /\ (forall j it', (j < i)%nat -> items !! j = Some it' -> total it' < scoreOf m)
  end.

(** The conditions under which each branch of the keyword loop body is
    taken, for the normalised query [q] and its content words. *)
Definition exactHit (q keyword : string) : bool :=
  String.eqb q (JS.toLowerCase keyword).

Definition containsEither (q keyword : string) : bool :=
  JS.includes q (JS.toLowerCase keyword) || JS.includes (JS.toLowerCase keyword) q.

Definition phraseHit (q keyword : string) : bool :=
  negb (exactHit q keyword) && containsEither q keyword.

Definition wordCount (keyword : string) : nat :=
  length (JS.split (JS.toLowerCase keyword)).

Definition allWordsHit (queryWords : list string) (keyword : string) : bool :=
  forallb (someWordMatches queryWords) (JS.split (JS.toLowerCase keyword))
  && (1 <? wordCount keyword)%nat.

Definition multiWordHit (q : string) (queryWords : list string) (keyword : string) : bool :=
  negb (exactHit q keyword) && negb (containsEither q keyword)
  && allWordsHit queryWords keyword.

Definition singleWordHit (q : string) (queryWords : list string) (keyword : string) : bool :=
  negb (exactHit q keyword) && negb (containsEither q keyword)
  && negb (allWordsHit queryWords keyword)
  && (wordCount keyword =? 1)%nat
  && someWordMatches queryWords (nth 0 (JS.split (JS.toLowerCase keyword)) EmptyString).

(** What one keyword adds to the score of its item. *)
Definition contribution (q : string) (queryWords : list string) (keyword : string) : Z :=
  fst (keywordStep q queryWords (0, []) keyword).

(** C3 as the specification words it: along the chain exact, substring,
    multi-word, single-word, the earlier rule always adds strictly more
    than the later one. *)
Definition ruleChainStrictlyDecreasing : Prop :=
  forall q queryWords k1 k2,
    (exactHit q k1 = true -> phraseHit q k2 = true ->
     contribution q queryWords k2 < contribution q queryWords k1)
    /\ (phraseHit q k1 = true -> multiWordHit q queryWords k2 = true ->
        contribution q queryWords k2 < contribution q queryWords k1)
    /\ (multiWordHit q queryWords k1 = true -> singleWordHit q queryWords k2 = true ->
        contribution q queryWords k2 < contribution q queryWords k1).

(** Two FAQ entries and a site-map entry on which the statements are
    exercised. *)
Definition narxEntry : FaqEntry :=
  mkFaqEntry "1" "Narxlar" "Narxlar sahifasida" "umumiy" ["narx"].

Definition narxQanchaEntry : FaqEntry :=
  mkFaqEntry "2" "Narx qancha?" "Narx loyihaga bog'liq" "umumiy" ["narx qancha"].

(** C6 as the specification words it: when the AI stage decides, the
    decision is NAVIGATION only if the very string the classifier returned
    is the url of a site-map entry. *)
Definition navigationOnlyForReturnedString : Prop :=
  forall faqs siteMap query oracle content url intent lexical,
    matchFAQ faqs query = None ->
    keywordMatch siteMap query = None ->
    oracle (mkChatRequest query (sectionsFrom 0 siteMap)) = Resolved (Some content) ->
    fst (run (detectNavigation faqs siteMap query) oracle)
      = Ok (NAVIGATION url intent lexical) ->
    exists item, In item siteMap /\ nav_url item = content.

Definition aboutItem : NavItem :=
  mkNavItem "/about" "Biz haqimizda" ["haqida"; "kompaniya"].

End AiService.

(** ** The rate limiter middleware ([rateLimiter.js]) *)

Module RateLimiter.

(** [RATE_LIMIT] *)
Definition MAX_REQUESTS : Z := 30.
Definition WINDOW_HOURS : Z := 12.
Definition WINDOW_MS : Z := 12 * 60 * 60 * 1000.

(** A value of [requestStore]. *)
Record ClientRecord := mkRecord {
  count : Z;
  firstRequest : Z;
  lastRequest : Z
}.

(** What the code reads of the request object: [req.ip],
    [req.connection.remoteAddress] and [req.headers["user-agent"]], each
    possibly undefined. *)
Record Request := mkRequest {
  req_ip : option string;
  req_remoteAddress : option string;
  req_userAgent : option string
}.

(** *** The identifier *)

(** [ToInt32] on an integral number. *)
Definition toInt32 (z : Z) : Z :=
  let m := z mod 2 ^ 32 in
  if m <? 2 ^ 31 then m else m - 2 ^ 32.

(** Body of the loop of [hashString] for one code unit. *)
Definition hashStep (hash : Z) (c : ascii) : Z :=
  let char := Z.of_N (N_of_ascii c) in
  let hash := toInt32 (Z.shiftl (toInt32 hash) 5) - hash + char in
  Z.land (toInt32 hash) (toInt32 hash).

Definition digit36 (d : Z) : ascii :=
  if d <? 10 then ascii_of_N (Z.to_N (48 + d)) else ascii_of_N (Z.to_N (87 + d)).

Fixpoint digits36 (fuel : nat) (n : Z) (acc : string) : string :=
  match fuel with
  | O => acc
  | S fuel' =>
      let acc' := String (digit36 (n mod 36)) acc in
      if n / 36 =? 0 then acc' else digits36 fuel' (n / 36) acc'
  end.

(** [n.toString(36)] for an integer [n >= 0]; the number of binary digits
    of [n] bounds the number of its digits in base 36. *)
Definition toString36 (n : Z) : string :=
  digits36 (S (Z.to_nat (Z.log2 n))) n EmptyString.

Definition hashString (str : string) : string :=
  toString36 (Z.abs (fold_left hashStep (list_ascii_of_string str) 0)).

(** [a || b] on possibly undefined strings: the empty string and
    [undefined] are falsy. *)
Definition orElse (a b : option string) : option string :=
  match a with
  | Some s => if String.eqb s EmptyString then b else Some s
  | None => b
  end.

(** A possibly undefined string inside a template literal. *)
Definition interpolate (a : option string) : string :=
  match a with
  | Some s => s
  | None => "undefined"
  end.

(** The first three statements of [rateLimiter] and of
    [getRateLimitStatus]. *)
Definition identifierOf (req : Request) : string :=
  let ip := orElse (req_ip req) (req_remoteAddress req) in
  let userAgent := orElse (req_userAgent req) (Some "unknown") in
  interpolate ip ++ "_" ++ hashString (interpolate userAgent).

(** *** State: the in-memory map and the durable file *)

(** [RATE_LIMIT_FILE]: missing, holding the JSON of an identifier-to-record
    object, or unreadable (what an interrupted write leaves behind). *)
Inductive Disk :=
| NoFile
| Saved (data : gmap string ClientRecord)
| Unreadable.

Record Limiter := mkLimiter {
  requestStore : gmap string ClientRecord;
  rateLimitFile : Disk
}.

(** How one [fs.writeFileSync] ends: the file is replaced, or the call
    throws leaving the old file, or it throws leaving a truncated one. *)
Inductive WriteOutcome := Written | FailedUntouched | FailedTruncated.

Definition L (A : Type) : Type := Limiter -> A * Limiter.

Definition ret {A} (a : A) : L A := fun st => (a, st).

Definition bind {A B} (c : L A) (k : A -> L B) : L B :=
  fun st => let '(a, st') := c st in k a st'.

Local Notation "'let!' x ':=' c 'in' k" := (bind c (fun x => k))
  (at level 10, x name, c at level 100, k at level 200).

(** [requestStore.get(identifier)] *)
Definition storeGet (identifier : string) : L (option ClientRecord) :=
  fun st => (requestStore st !! identifier, st).

(** [requestStore.set(identifier, record)] *)
Definition storeSet (identifier : string) (record : ClientRecord) : L unit :=
  fun st => (tt, mkLimiter (<[identifier := record]> (requestStore st)) (rateLimitFile st)).

(** [saveRateLimits]: the write error, if any, is caught and logged. *)
Definition saveRateLimits (w : WriteOutcome) : L unit :=
  fun st =>
    (tt, match w with
         | Written => mkLimiter (requestStore st) (Saved (requestStore st))
         | FailedUntouched => st
         | FailedTruncated => mkLimiter (requestStore st) Unreadable
         end).

(** [loadRateLimits]: every entry of a readable file is set in the map; a
    missing file does nothing and a read or parse error is caught. *)
Definition loadRateLimits : L unit :=
  fun st =>
    (tt, match rateLimitFile st with
         | Saved data => mkLimiter (data ∪ requestStore st) (rateLimitFile st)
         | NoFile | Unreadable => st
         end).

(** Start of the process: [requestStore = new Map()], then
    [loadRateLimits()]. *)
Definition startup (disk : Disk) : Limiter :=
  snd (loadRateLimits (mkLimiter ∅ disk)).

(** *** The middleware *)

(** The response headers set on the incrementing path. *)
Record Headers := mkHeaders {
  xRateLimitLimit : Z;
  xRateLimitRemaining : Z;
  xRateLimitReset : Z
}.

(** How the middleware ends: it calls [next()], with or without having set
    the headers, or it answers 429 with [resetAt], [remaining] and the
    number of hours quoted in the message. *)
Inductive Verdict :=
| Next (headers : option Headers)
| TooManyRequests (resetAt : Z) (remaining : Z) (hoursLeft : Z).

(** [Math.ceil(a / d)] for integers [a] and [d > 0]. *)
Definition ceilDiv (a d : Z) : Z := - ((- a) / d).

Definition rateLimiter (req : Request) (now : Z) (w : WriteOutcome) : L Verdict :=
  let identifier := identifierOf req in
  let! record := storeGet identifier in
  match record with
  | None =>
      let! _ := storeSet identifier (mkRecord 1 now now) in
      let! _ := saveRateLimits w in
      ret (Next None)
  | Some record =>
      if WINDOW_MS <? now - firstRequest record then
        let! _ := storeSet identifier (mkRecord 1 now now) in
        let! _ := saveRateLimits w in
        ret (Next None)
      else if MAX_REQUESTS <=? count record then
        let resetTime := firstRequest record + WINDOW_MS in
        let hoursLeft := ceilDiv (resetTime - now) (1000 * 60 * 60) in
        ret (TooManyRequests resetTime 0 hoursLeft)
      else
        let record := mkRecord (count record + 1) (firstRequest record) now in
        let! _ := storeSet identifier record in
        let! _ := (if Z.rem (count record) 5 =? 0 then saveRateLimits w else ret tt) in
        ret (Next (Some (mkHeaders MAX_REQUESTS
                           (MAX_REQUESTS - count record)
                           (firstRequest record + WINDOW_MS))))
  end.

(** The value of [getRateLimitStatus]. *)
Record Status := mkStatus {
  remaining : Z;
  resetAt : option Z;
  isLimited : bool
}.

Definition getRateLimitStatus (req : Request) (now : Z) : L Status :=
  let identifier := identifierOf req in
  let! record := storeGet identifier in
  match record with
  | None => ret (mkStatus MAX_REQUESTS None false)
  | Some record =>
      if WINDOW_MS <? now - firstRequest record then
        ret (mkStatus MAX_REQUESTS None false)
      else
        ret (mkStatus (Z.max 0 (MAX_REQUESTS - count record))
               (Some (firstRequest record + WINDOW_MS))
               (MAX_REQUESTS <=? count record))
  end.

(** The callback of [setInterval]: every entry whose window has elapsed
    is deleted, and the map is saved once when at least one was. *)
Definition expired (now : Z) (data : ClientRecord) : Prop :=
  WINDOW_MS < now - firstRequest data.

#[local] Instance expired_dec now data : Decision (expired now data).
Proof. unfold expired. apply _. Defined.

Definition sweep (now : Z) (w : WriteOutcome) : L unit :=
  fun st =>
    let cleaned := size (filter (fun kv => expired now kv.2) (requestStore st)) in
    let st' := mkLimiter (filter (fun kv => ¬ expired now kv.2) (requestStore st))
                 (rateLimitFile st) in
    if (0 <? cleaned)%nat then saveRateLimits w st' else (tt, st').

(** *** Reachable states

    One transition is a handled request, a status query, a sweep, or a
    restart of the process on the file left behind.  The first start finds
    no file. *)
Inductive step : Limiter -> Limiter -> Prop :=
| step_request req now w st : step st (snd (rateLimiter req now w st))
| step_status req now st : step st (snd (getRateLimitStatus req now st))
| step_sweep now w st : step st (snd (sweep now w st))
| step_restart st : step st (startup (rateLimitFile st)).

Inductive reachable : Limiter -> Prop :=
| reachable_start : reachable (startup NoFile)
| reachable_step st st' : reachable st -> step st st' -> reachable st'.

(** *** Vocabulary of the statements about the limiter *)

(** The count of a record is between one and the quota. *)
Definition countInRange (r : ClientRecord) : Prop :=
  1 <= count r <= MAX_REQUESTS.

(** The invariant carried along every run: the bound holds for the records
    in memory and for the records of a readable file. *)
Definition boundedStore (m : gmap string ClientRecord) : Prop :=
  forall identifier r, m !! identifier = Some r -> countInRange r.

Definition boundedDisk (d : Disk) : Prop :=
  match d with
  | Saved data => boundedStore data
  | NoFile | Unreadable => True
  end.

Definition bounded (st : Limiter) : Prop :=
  boundedStore (requestStore st) /\ boundedDisk (rateLimitFile st).

(** The same client sending one request per arrival, each arrival being
    the clock reading and the fate of a possible write; the verdicts come
    back in order of arrival. *)
Fixpoint serve (req : Request) (arrivals : list (Z * WriteOutcome))
    (st : Limiter) : list Verdict * Limiter :=
  match arrivals with
  | [] => ([], st)
  | (now, w) :: rest =>
      let '(v, st') := rateLimiter req now w st in
      let '(vs, st'') := serve req rest st' in
      (v :: vs, st'')
  end.

Definition allowed (v : Verdict) : Prop :=
  match v with
  | Next _ => True
  | TooManyRequests _ _ _ => False
  end.

(** A request and a state used to exercise the statements below: one
    client whose record is full, first seen at time [1000]. *)
Definition sampleRequest : Request :=
  mkRequest (Some "203.0.113.7") None (Some "Mozilla/5.0").

Definition fullRecord : ClientRecord := mkRecord 30 1000 5000.

Definition fullState : Limiter :=
  mkLimiter {[ identifierOf sampleRequest := fullRecord ]} NoFile.

Definition afterTwoRequests : Limiter :=
  snd (rateLimiter sampleRequest 70 Written
         (snd (rateLimiter sampleRequest 50 Written (startup NoFile)))).

End RateLimiter.

(** ** Further vocabulary about the rate limiter *)

Module RateLimiterSpec.
Import RateLimiter.





(** The number [hashString] builds before it is printed: the code units
    weighted by powers of 31, as an unbounded integer. *)
Definition poly31 (str : string) : Z :=
  fold_left (fun h c => 31 * h + Z.of_N (N_of_ascii c)) (list_ascii_of_string str) 0.

(** Reading a numeral in base 36 (digits 0-9 and a-z). *)
Definition digitValue (c : ascii) : Z :=
  let n := Z.of_N (N_of_ascii c) in
  if n <? 58 then n - 48 else n - 87.

Definition parse36 (s : string) : Z :=
  fold_left (fun v c => 36 * v + digitValue c) (list_ascii_of_string s) 0.

Definition isDigit36 (c : ascii) : bool :=
  let n := N_of_ascii c in
  (((48 <=? n) && (n <=? 57)) || ((97 <=? n) && (n <=? 122)))%N.

(** Thirty arrivals of one client, one per minute from time 0. *)
Definition minuteArrivals : list (Z * WriteOutcome) :=
  map (fun i => (60000 * Z.of_nat i, Written)) (seq 1 29).

End RateLimiterSpec.

(** ** Further vocabulary about the matchers *)

Module AiServiceSpec.
Import AiService.

(** The sum of what the keywords of an item add, and the keywords that
    add something. *)
Definition contributionSum (q : string) (queryWords keywords : list string) : Z :=
  fold_right (fun k acc => contribution q queryWords k + acc) 0 keywords.

Definition contributing (q : string) (queryWords keywords : list string) : list string :=
  List.filter (fun k => 0 <? contribution q queryWords k) keywords.

End AiServiceSpec.

(** ** The response generators and the routes
    ([generateChatResponse], [generateGeneralChat], [routes/assistant.js]) *)

Module Assistant.
Import AiService RateLimiter.

(** [req.body.query]: a string, or any other value (missing, null, a
    number, an object, ...). *)
Inductive JsValue :=
| JsString (s : string)
| JsOther.

(** What the router reads of a request: the fields behind the identifier,
    and [req.body], which is undefined ([None]) or an object whose [query]
    property has the given value. *)
Record HttpRequest := mkHttp {
  http_client : Request;
  http_body : option JsValue
}.

(** The system prompt of a reply: the assistant prompt of
    [generateChatResponse], with the block that names the target section
    when [isNavigating], or the prompt of [generateGeneralChat]. *)
Inductive Prompt :=
| AssistantPrompt (navigatingTo : option (option string))
| GeneralPrompt.

(** A request for the text of a reply: system prompt, user message,
    [temperature] in tenths and [max_tokens]. *)
Record ReplyRequest := mkReplyRequest {
  rr_prompt : Prompt;
  rr_query : string;
  rr_temperatureTenths : Z;
  rr_maxTokens : Z
}.

(** The two uses of the hosted model: classifying and replying. *)
Record Services := mkServices {
  classifier : ChatRequest -> Completion;
  responder : ReplyRequest -> Completion
}.

(** Ghost trace of a handler: the stages of [detectNavigation] it entered
    and the replies it asked for. *)
Inductive Event :=
| Entered (s : Stage)
| Asked (r : ReplyRequest).

Definition H (A : Type) : Type :=
  Services -> list Event -> Result A * list Event.

Definition hret {A} (a : A) : H A := fun _ trace => (Ok a, trace).

Definition hbind {A B} (c : H A) (k : A -> H B) : H B :=
  fun sv trace =>
    match c sv trace with
    | (Ok a, trace') => k a sv trace'
    | (Thrown e, trace') => (Thrown e, trace')
    end.

Definition hthrow {A} (e : string) : H A := fun _ trace => (Thrown e, trace).

Definition htry {A} (body : H A) (handler : string -> H A) : H A :=
  fun sv trace =>
    match body sv trace with
    | (Ok a, trace') => (Ok a, trace')
    | (Thrown e, trace') => handler e sv trace'
    end.

(** A call into [aiService.js]'s orchestrator. *)
Definition classify {A} (c : M A) : H A :=
  fun sv trace =>
    let '(r, log) := c (classifier sv) [] in
    (r, (trace ++ map Entered log)%list).

(** [await openai.chat.completions.create(...)] for a reply, and the read
    of [response.choices[0].message.content]. *)
Definition replyContent (r : ReplyRequest) : H string :=
  fun sv trace =>
    match responder sv r with
    | Rejected reason => (Thrown reason, (trace ++ [Asked r])%list)
    | Resolved (Some content) => (Ok content, (trace ++ [Asked r])%list)
    | Resolved None => (Thrown "TypeError", (trace ++ [Asked r])%list)
    end.

Local Notation "'let!' x ':=' c 'in' k" := (hbind c (fun x => k))
  (at level 10, x name, c at level 100, k at level 200).

Definition apology : string :=
  "Kechirasiz, xatolik yuz berdi. Qaytadan urinib ko'ring.".

(** [detectionResult.type === "NAVIGATION" && detectionResult.matched &&
    detectionResult.url !== "NOT_FOUND"] *)
Definition isNavigating (detectionResult : Decision) : bool :=
  match detectionResult with
  | NAVIGATION url _ _ => negb (String.eqb url "NOT_FOUND")
  | FAQ _ | NOT_FOUND => false
  end.

Definition generateChatResponse (query : string) (detectionResult : Decision) : H string :=
  match detectionResult with
  | FAQ faq => hret (faq_answer (fm_faq faq))
  | NAVIGATION _ _ _ | NOT_FOUND =>
      let navigating := isNavigating detectionResult in
      let intent := match detectionResult with
                    | NAVIGATION _ intent _ => intent
                    | _ => None
                    end in
      htry
        (let! content :=
           replyContent
             (mkReplyRequest
                (AssistantPrompt (if navigating then Some intent else None))
                query 3 (if navigating then 30 else 100)) in
         hret (JS.trim content))
        (fun error => hret (if navigating then "Bu yerga bosing" else apology))
  end.

Definition generateGeneralChat (query : string) : H string :=
  htry
    (let! content := replyContent (mkReplyRequest GeneralPrompt query 7 100) in
     hret (JS.trim content))
    (fun error => hret apology).

(** The JSON bodies the router sends. *)
Inductive ResponseType := TypeFAQ | TypeNAVIGATION | TypeCHAT.

Record RateLimitInfo := mkRateLimitInfo {
  info_remaining : Z;
  info_resetAt : option Z
}.

Inductive Body :=
| ErrorBody (error : string) (message : option string)
| ChatBody (message : string) (type : ResponseType)
    (faq : option (string * string * string))
    (navigation : option (string * option string))
    (rateLimit : RateLimitInfo)
| NavigateBody (target : option (string * option string)) (rateLimit : RateLimitInfo)
| HealthBody (timestamp : Z)
| RateLimitExceededBody (resetAt remaining hoursLeft : Z).

Record Response := mkResponse {
  res_status : Z;
  res_body : Body
}.

Definition rateLimitOf (status : Status) : RateLimitInfo :=
  mkRateLimitInfo (remaining status) (resetAt status).

(** The checks on the query shared by [/chat] and [/talk]; [inr] is the
    trimmed query. *)
Definition validated (body : option JsValue) : H (Response + string) :=
  match body with
  | None => hthrow "TypeError"
  | Some JsOther => hret (inl (mkResponse 400 (ErrorBody "Query is required" None)))
  | Some (JsString query) =>
      if String.eqb query EmptyString then
        hret (inl (mkResponse 400 (ErrorBody "Query is required" None)))
      else
        let trimmedQuery := JS.trim query in
        if (String.length trimmedQuery =? 0)%nat then
          hret (inl (mkResponse 400 (ErrorBody "Bo'sh xabar yuborib bo'lmaydi" None)))
        else if (500 <? String.length trimmedQuery)%nat then
          hret (inl (mkResponse 400
                       (ErrorBody "Xabar juda uzun (maksimal 500 belgi)" None)))
        else hret (inr trimmedQuery)
  end.

(** [router.post("/chat", ...)]; [now] is the clock read by
    [getRateLimitStatus] and [st] the limiter state at that moment. *)
Definition chatRoute (faqs : list FaqEntry) (siteMap : list NavItem)
    (req : HttpRequest) (now : Z) (st : Limiter) : H Response :=
  htry
    (let! checked := validated (http_body req) in
     match checked with
     | inl rejection => hret rejection
     | inr trimmedQuery =>
         let! detectionResult := classify (detectNavigation faqs siteMap trimmedQuery) in
         let! aiResponse := generateChatResponse trimmedQuery detectionResult in
         let rateLimitStatus := fst (getRateLimitStatus (http_client req) now st) in
         match detectionResult with
         | FAQ faq =>
             hret (mkResponse 200
                     (ChatBody aiResponse TypeFAQ
                        (Some (faq_id (fm_faq faq), faq_question (fm_faq faq),
                               faq_category (fm_faq faq)))
                        None (rateLimitOf rateLimitStatus)))
         | NAVIGATION url intent _ =>
             if negb (String.eqb url "NOT_FOUND") then
               hret (mkResponse 200
                       (ChatBody aiResponse TypeNAVIGATION None (Some (url, intent))
                          (rateLimitOf rateLimitStatus)))
             else
               hret (mkResponse 200
                       (ChatBody aiResponse TypeCHAT None None
                          (rateLimitOf rateLimitStatus)))
         | NOT_FOUND =>
             hret (mkResponse 200
                     (ChatBody aiResponse TypeCHAT None None
                        (rateLimitOf rateLimitStatus)))
         end
     end)
    (fun err => hret (mkResponse 500 (ErrorBody "Internal server error" (Some apology)))).

(** [router.post("/navigate", ...)]: the query is neither trimmed nor
    bounded in length. *)
Definition navigateRoute (faqs : list FaqEntry) (siteMap : list NavItem)
    (req : HttpRequest) (now : Z) (st : Limiter) : H Response :=
  htry
    (match http_body req with
     | None => hthrow "TypeError"
     | Some JsOther => hret (mkResponse 400 (ErrorBody "Query is required" None))
     | Some (JsString query) =>
         if String.eqb query EmptyString then
           hret (mkResponse 400 (ErrorBody "Query is required" None))
         else
           let! result := classify (detectNavigation faqs siteMap query) in
           let rateLimitStatus := fst (getRateLimitStatus (http_client req) now st) in
           match result with
           | NAVIGATION url intent _ =>
               if String.eqb url "NOT_FOUND" then
                 hret (mkResponse 200 (NavigateBody None (rateLimitOf rateLimitStatus)))
               else
                 hret (mkResponse 200
                         (NavigateBody (Some (url, intent)) (rateLimitOf rateLimitStatus)))
           | FAQ _ | NOT_FOUND =>
               hret (mkResponse 200 (NavigateBody None (rateLimitOf rateLimitStatus)))
           end
     end)
    (fun err =>
       hret (mkResponse 500
               (ErrorBody "Internal server error" (Some "Kechirasiz, xatolik yuz berdi.")))).

(** [router.post("/talk", ...)] *)
Definition talkRoute (req : HttpRequest) (now : Z) (st : Limiter) : H Response :=
  htry
    (let! checked := validated (http_body req) in
     match checked with
     | inl rejection => hret rejection
     | inr trimmedQuery =>
         let! aiResponse := generateGeneralChat trimmedQuery in
         let rateLimitStatus := fst (getRateLimitStatus (http_client req) now st) in
         hret (mkResponse 200
                 (ChatBody aiResponse TypeCHAT None None (rateLimitOf rateLimitStatus)))
     end)
    (fun err =>
       hret (mkResponse 500
               (ErrorBody "Internal server error" (Some "Kechirasiz, xatolik yuz berdi.")))).

(** [router.get("/health", ...)] *)
Definition healthRoute (now : Z) : H Response :=
  hret (mkResponse 200 (HealthBody now)).

(** The router: [router.use(rateLimiter)] is registered before the four
    routes, so every request to them passes the middleware first and
    reaches its handler only when the middleware calls [next()].
    [arrival] is the clock read by the middleware and [later] the clock read
    by the handler; the handler is run on the state the middleware left,
    that is, with no other request handled in between. *)
Inductive Route := PostChat | PostNavigate | PostTalk | GetHealth.

Definition assistantRouter (faqs : list FaqEntry) (siteMap : list NavItem)
    (route : Route) (req : HttpRequest) (arrival : Z) (w : WriteOutcome) (later : Z)
    (sv : Services) (st : Limiter)
    : (Result Response * list Event) * option Headers * Limiter :=
  let '(verdict, st') := rateLimiter (http_client req) arrival w st in
  match verdict with
  | TooManyRequests resetAt remaining hoursLeft =>
      ((Ok (mkResponse 429 (RateLimitExceededBody resetAt remaining hoursLeft)), []),
       None, st')
  | Next headers =>
      (match route with
       | PostChat => chatRoute faqs siteMap req later st'
       | PostNavigate => navigateRoute faqs siteMap req later st'
       | PostTalk => talkRoute req later st'
       | GetHealth => healthRoute later
       end sv [],
       headers, st')
  end.

(** A query that [/chat] and [/talk] accept: a string whose trimmed form
    has between 1 and 500 characters. *)
Definition acceptable (v : JsValue) : Prop :=
  exists query, v = JsString query
                /\ (1 <= String.length (JS.trim query) <= 500)%nat.

(** How the status code of [/chat] and [/talk] follows the body of the
    request, and that only a 200 has consulted a service. *)
Definition statusFollowsBody (body : option JsValue)
    (outcome : Result Response * list Event) : Prop :=
  exists response trace,
    outcome = (Ok response, trace)
    /\ (res_status response = 500 <-> body = None)
    /\ (res_status response = 400 <-> exists v, body = Some v /\ ~ acceptable v)
    /\ (res_status response = 200 <-> exists v, body = Some v /\ acceptable v)
    /\ (res_status response <> 200 -> trace = []).

(** The rate-limit information a body carries, if any. *)
Definition rateLimitOfBody (body : Body) : option RateLimitInfo :=
  match body with
  | ChatBody _ _ _ _ info | NavigateBody _ info => Some info
  | ErrorBody _ _ | HealthBody _ | RateLimitExceededBody _ _ _ => None
  end.

(** A site-map entry that shares its keyword with [narxEntry]. *)
Definition narxItem : NavItem := mkNavItem "/narxlar" "Narxlar" ["narx"].

(** Services that fail on every call. *)
Definition servicesDown : Services :=
  mkServices (fun _ => Rejected "ECONNREFUSED") (fun _ => Rejected "ECONNREFUSED").

(** A service pair that answers every call with the same text. *)
Definition servicesSaying (verdict reply : string) : Services :=
  mkServices (fun _ => Resolved (Some verdict)) (fun _ => Resolved (Some reply)).

Definition chatRequestOf (query : string) : HttpRequest :=
  mkHttp sampleRequest (Some (JsString query)).

End Assistant.

(** * Facts about the string primitives *)

Module JSFacts.

(** [split] always returns at least one piece, so the last branch of its
    definition is never taken. *)
Lemma split_not_empty (s : string) : JS.split s <> [].
Proof.
  induction s as [|c s IH]; simpl; [discriminate|].
  destruct (JS.isWhiteSpace c).
  - destruct (JS.startsWithWhiteSpace s); [exact IH | discriminate].
  - destruct (JS.split s); discriminate.
Qed.

Lemma prefix_empty (s : string) : String.prefix EmptyString s = true.
Proof. destruct s; reflexivity. Qed.

Lemma prefix_self (s : string) : String.prefix s s = true.
Proof.
  induction s as [|c s IH]; simpl; [reflexivity|].
  destruct (Ascii.ascii_dec c c); [exact IH | congruence].
Qed.

(** Every string includes the empty string and itself. *)
Lemma includes_empty (s : string) : JS.includes s EmptyString = true.
Proof. destruct s; reflexivity. Qed.

Lemma includes_self (s : string) : JS.includes s s = true.
Proof.
  destruct s as [|c s]; simpl; [reflexivity|]. rewrite prefix_self.
  destruct (Ascii.ascii_dec c c); [reflexivity | congruence].
Qed.

Lemma toLowerCase_length (s : string) :
  String.length (JS.toLowerCase s) = String.length s.
Proof. induction s as [|c s IH]; simpl; congruence. Qed.

(** The primitives on the inputs that fix their corner cases. *)
Example split_pieces :
  JS.split "narx qancha" = ["narx"; "qancha"]
  /\ JS.split "a   b" = ["a"; "b"]
  /\ JS.split EmptyString = [EmptyString]
  /\ JS.split " a" = [EmptyString; "a"]
  /\ JS.split "a " = ["a"; EmptyString]
  /\ JS.split " " = [EmptyString; EmptyString].
Proof. repeat split. Qed.

Example trim_and_lower :
  JS.trim "  Narx  Qancha " = "Narx  Qancha"
  /\ JS.toLowerCase "Narx QANCHA" = "narx qancha"
  /\ JS.trim "   " = EmptyString.
Proof. repeat split. Qed.

Example includes_substring :
  JS.includes "narx qancha" "qan" = true
  /\ JS.includes "narx" "narx qancha" = false
  /\ JS.includes "qanday" "qan day" = false.
Proof. repeat split. Qed.

Example hashString_values :
  RateLimiter.hashString "unknown" = "4pl4mu"
  /\ RateLimiter.hashString EmptyString = "0"
  /\ RateLimiter.identifierOf (RateLimiter.mkRequest None (Some "::1") None)
     = "::1_4pl4mu".
Proof. repeat split. Qed.

End JSFacts.

(** * Properties of the rate limiter *)

Module RateLimiterFacts.
Import RateLimiter.

(** The configured quota and window. *)
Lemma quota_is_30 : MAX_REQUESTS = 30.
Proof. reflexivity. Qed.

Lemma window_is_12_hours : WINDOW_MS = 12 * 3600000 /\ WINDOW_MS = 43200000.
Proof. split; reflexivity. Qed.

Lemma boundedStore_empty : boundedStore ∅.
Proof. intros identifier r H. rewrite lookup_empty in H. discriminate. Qed.

Lemma boundedStore_insert m identifier r :
  boundedStore m -> countInRange r -> boundedStore (<[identifier := r]> m).
Proof.
  intros Hm Hr j r' Hj.
  destruct (decide (identifier = j)) as [->|Hne].
  - rewrite lookup_insert_eq in Hj. congruence.
  - rewrite lookup_insert_ne in Hj by assumption. eauto.
Qed.

Lemma boundedStore_filter (P : string * ClientRecord -> Prop)
    `{!forall kv, Decision (P kv)} (m : gmap string ClientRecord) :
  boundedStore m -> boundedStore (filter P m).
Proof.
  intros Hm j r Hj. apply map_lookup_filter_Some in Hj as [Hj _]. eauto.
Qed.

Lemma boundedStore_union (m1 m2 : gmap string ClientRecord) :
  boundedStore m1 -> boundedStore m2 -> boundedStore (m1 ∪ m2).
Proof.
  intros H1 H2 j r Hj.
  apply lookup_union_Some_raw in Hj as [Hj | [_ Hj]]; eauto.
Qed.

Lemma bounded_storeSet identifier r st :
  bounded st -> countInRange r -> bounded (snd (storeSet identifier r st)).
Proof.
  intros [Hs Hd] Hr. split; simpl; [now apply boundedStore_insert | exact Hd].
Qed.

Lemma bounded_saveRateLimits w st :
  bounded st -> bounded (snd (saveRateLimits w st)).
Proof.
  intros [Hs Hd]. destruct w; simpl; split; simpl; auto.
Qed.

Lemma bounded_startup d : boundedDisk d -> bounded (startup d).
Proof.
  intros Hd. unfold startup, loadRateLimits. destruct d; simpl; split; simpl;
    auto using boundedStore_empty, boundedStore_union.
Qed.

Lemma countInRange_fresh now : countInRange (mkRecord 1 now now).
Proof. unfold countInRange, MAX_REQUESTS. simpl. lia. Qed.

Lemma bounded_rateLimiter req now w st :
  bounded st -> bounded (snd (rateLimiter req now w st)).
Proof.
  intros Hst. unfold rateLimiter, bind, storeGet, ret.
  destruct (requestStore st !! identifierOf req) as [r|] eqn:Hget.
  - destruct (WINDOW_MS <? now - firstRequest r).
    + apply bounded_saveRateLimits, bounded_storeSet;
        auto using countInRange_fresh.
    + destruct (MAX_REQUESTS <=? count r) eqn:Hfull; [exact Hst|].
      apply Z.leb_gt in Hfull.
      assert (Hr : countInRange (mkRecord (count r + 1) (firstRequest r) now)).
      { destruct Hst as [Hs _]. specialize (Hs _ _ Hget).
        unfold countInRange in *. simpl. lia. }
      cbn [count].
      destruct (Z.rem (count r + 1) 5 =? 0).
      * apply bounded_saveRateLimits, bounded_storeSet; assumption.
      * apply bounded_storeSet; assumption.
  - apply bounded_saveRateLimits, bounded_storeSet;
      auto using countInRange_fresh.
Qed.

Lemma getRateLimitStatus_state req now st :
  snd (getRateLimitStatus req now st) = st.
Proof.
  unfold getRateLimitStatus, bind, storeGet, ret.
  destruct (requestStore st !! identifierOf req) as [r|]; [|reflexivity].
  destruct (WINDOW_MS <? now - firstRequest r); reflexivity.
Qed.

Lemma bounded_sweep now w st : bounded st -> bounded (snd (sweep now w st)).
Proof.
  intros [Hs Hd]. unfold sweep.
  match goal with |- context [if ?b then _ else _] => destruct b end.
  - apply bounded_saveRateLimits. split; simpl; [now apply boundedStore_filter | exact Hd].
  - split; simpl; [now apply boundedStore_filter | exact Hd].
Qed.

Lemma bounded_step st st' : step st st' -> bounded st -> bounded st'.
Proof.
  intros Hstep Hst. destruct Hstep.
  - now apply bounded_rateLimiter.
  - now rewrite getRateLimitStatus_state.
  - now apply bounded_sweep.
  - apply bounded_startup. apply Hst.
Qed.

Lemma reachable_bounded st : reachable st -> bounded st.
Proof.
  induction 1 as [|st st' _ IH Hstep].
  - apply bounded_startup. exact I.
  - eapply bounded_step; eassumption.
Qed.

(** The first request of an identifier creates its record. *)
Lemma first_request_creates_record req now w st :
  requestStore st !! identifierOf req = None ->
  fst (rateLimiter req now w st) = Next None
  /\ requestStore (snd (rateLimiter req now w st)) !! identifierOf req
     = Some (mkRecord 1 now now).
Proof.
  intros Hget. unfold rateLimiter, bind, storeGet, ret. rewrite Hget.
  split; [reflexivity|]. destruct w; simpl; apply lookup_insert_eq.
Qed.

(** Inside the window and below the quota the request passes, the count
    goes up by one and [firstRequest] stays. *)
Lemma request_below_quota_increments req now w st r :
  requestStore st !! identifierOf req = Some r ->
  now - firstRequest r <= WINDOW_MS ->
  count r < MAX_REQUESTS ->
  fst (rateLimiter req now w st)
    = Next (Some (mkHeaders 30 (30 - (count r + 1)) (firstRequest r + WINDOW_MS)))
  /\ requestStore (snd (rateLimiter req now w st)) !! identifierOf req
     = Some (mkRecord (count r + 1) (firstRequest r) now).
Proof.
  intros Hget Hwin Hlt. unfold rateLimiter, bind, storeGet, ret. rewrite Hget.
  destruct (WINDOW_MS <? now - firstRequest r) eqn:Hexp.
  { apply Z.ltb_lt in Hexp. lia. }
  destruct (MAX_REQUESTS <=? count r) eqn:Hfull.
  { apply Z.leb_le in Hfull. lia. }
  cbn [count firstRequest].
  destruct (Z.rem (count r + 1) 5 =? 0); (split; [reflexivity|]).
  - destruct w; simpl; apply lookup_insert_eq.
  - simpl. apply lookup_insert_eq.
Qed.

Lemma serve_below_quota req arrivals : forall st r,
  requestStore st !! identifierOf req = Some r ->
  Forall (fun a => a.1 - firstRequest r <= WINDOW_MS) arrivals ->
  count r + Z.of_nat (length arrivals) <= MAX_REQUESTS ->
  Forall allowed (fst (serve req arrivals st))
  /\ exists last,
       requestStore (snd (serve req arrivals st)) !! identifierOf req
       = Some (mkRecord (count r + Z.of_nat (length arrivals)) (firstRequest r) last).
Proof.
  induction arrivals as [|[now w] rest IH]; intros st r Hget Hwin Hroom.
  - simpl. split; [constructor|]. exists (lastRequest r).
    rewrite Z.add_0_r. destruct r. exact Hget.
  - apply Forall_cons in Hwin as [Hnow Hrest]. simpl in Hnow.
    cbn [length] in Hroom.
    destruct (request_below_quota_increments req now w st r Hget Hnow) as [Hv Hget'];
      [lia|].
    cbn [serve].
    destruct (rateLimiter req now w st) as [v st'] eqn:Hstep.
    simpl in Hv, Hget'.
    destruct (IH st' _ Hget') as [Hall [last Hlast]]; [exact Hrest | simpl; lia |].
    destruct (serve req rest st') as [vs st''] eqn:Hserve. simpl in *.
    split.
    + constructor; [rewrite Hv; exact I | exact Hall].
    + exists last. rewrite Hlast. f_equal. f_equal. lia.
Qed.

(** The scenario behind C1: a new client sends 30 requests inside one
    window, all of which pass; its next request inside that window is
    answered 429 with [remaining = 0] and [resetAt] twelve hours after the
    first request. *)
Lemma request_after_quota_is_denied req t0 w0 arrivals t w st :
  requestStore st !! identifierOf req = None ->
  length arrivals = 29%nat ->
  Forall (fun a => a.1 - t0 <= WINDOW_MS) arrivals ->
  t - t0 <= WINDOW_MS ->
  let served := serve req ((t0, w0) :: arrivals) st in
  length (fst served) = 30%nat
  /\ Forall allowed (fst served)
  /\ exists hoursLeft,
       fst (rateLimiter req t w (snd served))
       = TooManyRequests (t0 + WINDOW_MS) 0 hoursLeft.
Proof.
  intros Hnew Hlen Hwin Ht served. subst served. cbn [serve].
  destruct (first_request_creates_record req t0 w0 st Hnew) as [Hv Hget].
  destruct (rateLimiter req t0 w0 st) as [v st1]. simpl in Hv, Hget.
  destruct (serve_below_quota req arrivals st1 _ Hget) as [Hall [last Hlast]];
    [exact Hwin | simpl; unfold MAX_REQUESTS; lia |].
  assert (Hcount : length (fst (serve req arrivals st1)) = 29%nat).
  { clear -Hlen. revert st1 Hlen. generalize 29%nat as n.
    induction arrivals as [|[now w'] rest IH]; intros n st1 Hlen; [exact Hlen|].
    cbn [serve]. destruct (rateLimiter req now w' st1) as [v' st'].
    destruct n as [|n]; [discriminate|]. injection Hlen as Hlen.
    specialize (IH n st' Hlen). destruct (serve req rest st'). simpl in *. lia. }
  destruct (serve req arrivals st1) as [vs st2]. simpl in *.
  split; [lia|]. split; [constructor; [rewrite Hv; exact I | exact Hall]|].
  rewrite Hlen in Hlast.
  exists (ceilDiv (t0 + WINDOW_MS - t) 3600000).
  unfold rateLimiter, bind, storeGet, ret. rewrite Hlast. cbn [firstRequest count].
  destruct (WINDOW_MS <? t - t0) eqn:Hexp; [apply Z.ltb_lt in Hexp; lia|].
  reflexivity.
Qed.

(** C1. A request whose identifier has a record inside its window with
    [count >= 30] is answered 429 with [remaining = 0] and
    [resetAt = firstRequest + 12 h]; the in-memory map and the file are the
    same afterwards, so the record keeps its count, first and last
    request. *)
Theorem denied_request_reports_zero_and_keeps_record
    (req : Request) (now : Z) (w : WriteOutcome) (st : Limiter) (r : ClientRecord) :
  requestStore st !! identifierOf req = Some r ->
  now - firstRequest r <= WINDOW_MS ->
  MAX_REQUESTS <= count r ->
  fst (rateLimiter req now w st)
    = TooManyRequests (firstRequest r + 12 * 3600000) 0
        (ceilDiv (firstRequest r + WINDOW_MS - now) 3600000)
  /\ snd (rateLimiter req now w st) = st
  /\ requestStore (snd (rateLimiter req now w st)) !! identifierOf req = Some r.
Proof.
  intros Hget Hwin Hfull.
  unfold rateLimiter, bind, storeGet, ret. rewrite Hget.
  destruct (WINDOW_MS <? now - firstRequest r) eqn:Hexp.
  { apply Z.ltb_lt in Hexp. lia. }
  destruct (MAX_REQUESTS <=? count r) eqn:Hq.
  - simpl. auto.
  - apply Z.leb_gt in Hq. lia.
Qed.

Lemma denied_request_witness :
  fst (rateLimiter sampleRequest 2000 Written fullState)
    = TooManyRequests (1000 + 12 * 3600000) 0 12
  /\ snd (rateLimiter sampleRequest 2000 Written fullState) = fullState.
Proof.
  destruct (denied_request_reports_zero_and_keeps_record
              sampleRequest 2000 Written fullState fullRecord) as (Hv & Hs & _).
  - vm_compute. reflexivity.
  - vm_compute. discriminate.
  - vm_compute. discriminate.
  - split; [exact Hv | exact Hs].
Defined.

(** C5. Once more than 12 hours have passed since [firstRequest], the next
    request of that identifier is let through and its record becomes
    [count = 1], [firstRequest = lastRequest = now], whatever the count
    was. *)
Theorem expired_window_resets_record
    (req : Request) (now : Z) (w : WriteOutcome) (st : Limiter) (r : ClientRecord) :
  requestStore st !! identifierOf req = Some r ->
  now - firstRequest r > WINDOW_MS ->
  fst (rateLimiter req now w st) = Next None
  /\ requestStore (snd (rateLimiter req now w st)) !! identifierOf req
     = Some (mkRecord 1 now now).
Proof.
  intros Hget Hexp.
  unfold rateLimiter, bind, storeGet, ret. rewrite Hget.
  destruct (WINDOW_MS <? now - firstRequest r) eqn:Hlt.
  - split; [reflexivity|].
    destruct w; simpl; apply lookup_insert_eq.
  - apply Z.ltb_ge in Hlt. lia.
Qed.

Lemma expired_window_witness :
  fst (rateLimiter sampleRequest 43201001 Written fullState) = Next None
  /\ requestStore (snd (rateLimiter sampleRequest 43201001 Written fullState))
       !! identifierOf sampleRequest
     = Some (mkRecord 1 43201001 43201001).
Proof.
  apply (expired_window_resets_record sampleRequest 43201001 Written fullState fullRecord).
  - vm_compute. reflexivity.
  - vm_compute. reflexivity.
Defined.

(** C8. [getRateLimitStatus] returns the state it was given, map and file
    alike.  For an absent record or one whose window has elapsed it reports
    [remaining = 30] and no reset time; otherwise
    [remaining = max 0 (30 - count)] and
    [resetAt = firstRequest + 12 h]. *)
Theorem getRateLimitStatus_is_read_only
    (req : Request) (now : Z) (st : Limiter) :
  snd (getRateLimitStatus req now st) = st
  /\ ((requestStore st !! identifierOf req = None
       \/ exists r, requestStore st !! identifierOf req = Some r
                    /\ now - firstRequest r > WINDOW_MS) ->
      remaining (fst (getRateLimitStatus req now st)) = 30
      /\ resetAt (fst (getRateLimitStatus req now st)) = None)
  /\ (forall r,
        requestStore st !! identifierOf req = Some r ->
        now - firstRequest r <= WINDOW_MS ->
        remaining (fst (getRateLimitStatus req now st)) = Z.max 0 (30 - count r)
        /\ resetAt (fst (getRateLimitStatus req now st))
           = Some (firstRequest r + 12 * 3600000)).
Proof.
  split; [apply getRateLimitStatus_state|].
  unfold getRateLimitStatus, bind, storeGet, ret.
  destruct (requestStore st !! identifierOf req) as [r0|] eqn:Hget.
  - destruct (WINDOW_MS <? now - firstRequest r0) eqn:Hlt; simpl.
    + apply Z.ltb_lt in Hlt. split; [auto|].
      intros r [= <-] Hin. lia.
    + apply Z.ltb_ge in Hlt. split.
      * intros [Hnone | (r & [= <-] & Hexp)]; [discriminate | lia].
      * intros r [= <-] _. auto.
  - simpl. split; [auto | intros r Hr; discriminate].
Qed.

Lemma getRateLimitStatus_witness :
  snd (getRateLimitStatus sampleRequest 2000 fullState) = fullState
  /\ remaining (fst (getRateLimitStatus sampleRequest 2000 fullState)) = 0
  /\ resetAt (fst (getRateLimitStatus sampleRequest 2000 fullState)) = Some 43201000
  /\ remaining (fst (getRateLimitStatus sampleRequest 43201001 fullState)) = 30
  /\ resetAt (fst (getRateLimitStatus sampleRequest 43201001 fullState)) = None.
Proof.
  destruct (getRateLimitStatus_is_read_only sampleRequest 2000 fullState)
    as (Hs & _ & Hin).
  destruct (getRateLimitStatus_is_read_only sampleRequest 43201001 fullState)
    as (_ & Hout & _).
  destruct (Hin fullRecord) as [Hrem Hreset].
  - vm_compute. reflexivity.
  - vm_compute. discriminate.
  - destruct Hout as [Hrem' Hreset'].
    + right. exists fullRecord. split; vm_compute; reflexivity.
    + repeat split; assumption.
Defined.

(** C9. In every state reached from the first start by requests, status
    queries, sweeps and restarts, every record of the in-memory map has
    [1 <= count <= 30]. *)
Theorem reachable_count_between_1_and_quota
    (st : Limiter) (identifier : string) (r : ClientRecord) :
  reachable st ->
  requestStore st !! identifier = Some r ->
  1 <= count r <= 30.
Proof.
  intros Hreach Hget.
  destruct (reachable_bounded st Hreach) as [Hs _].
  exact (Hs identifier r Hget).
Qed.

Lemma reachable_count_witness :
  reachable afterTwoRequests
  /\ requestStore afterTwoRequests !! identifierOf sampleRequest
     = Some (mkRecord 2 50 70)
  /\ 1 <= 2 <= 30.
Proof.
  assert (Hreach : reachable afterTwoRequests).
  { unfold afterTwoRequests.
    eapply reachable_step; [eapply reachable_step; [apply reachable_start|]|];
      apply step_request. }
  assert (Hget : requestStore afterTwoRequests !! identifierOf sampleRequest
                 = Some (mkRecord 2 50 70)).
  { vm_compute. reflexivity. }
  split; [exact Hreach | split; [exact Hget|]].
  exact (reachable_count_between_1_and_quota afterTwoRequests
           (identifierOf sampleRequest) (mkRecord 2 50 70) Hreach Hget).
Defined.

End RateLimiterFacts.

(** * Properties of the matchers and of the orchestrator *)

Module AiServiceFacts.
Import AiService.

(** ** Selection of the best item *)

Section FirstBest.
Context {Item Match : Type}.
Variable total : Item -> Z.
Variable make : Item -> Match.
Variable floor : Z.
Hypothesis floor_positive : 1 <= floor.

Lemma pick_keeps_firstBest items st x :
  firstBest total make floor items st ->
  firstBest total make floor (items ++ [x]) (pick total make floor st x).
Proof.
  destruct st as [best hi]. unfold firstBest, pick. simpl.
  destruct ((hi <? total x) && (floor <=? total x)) eqn:Hguard; simpl.
  - apply andb_true_iff in Hguard as [Hhi Hfl].
    apply Z.ltb_lt in Hhi. apply Z.leb_le in Hfl.
    intros Hst. exists (length items), x.
    split; [apply list_lookup_middle; reflexivity|].
    do 3 (split; [first [reflexivity | assumption]|]).
    assert (Hbelow : forall j it', items !! j = Some it' -> total it' < total x).
    { intros j it' Hj. destruct best as [m|].
      - destruct Hst as (i & it & _ & _ & -> & _ & Hall & _).
        specialize (Hall j it' Hj). lia.
      - destruct Hst as [_ Hall]. specialize (Hall j it' Hj). lia. }
    split.
    + intros j it' Hj. apply lookup_snoc_Some in Hj as [[_ Hj] | [_ <-]].
      * specialize (Hbelow j it' Hj). lia.
      * lia.
    + intros j it' Hlt Hj. apply lookup_snoc_Some in Hj as [[_ Hj] | [-> _]].
      * eauto.
      * lia.
  - apply andb_false_iff in Hguard.
    rewrite Z.ltb_ge, Z.leb_gt in Hguard.
    destruct best as [m|].
    + intros (i & it & Hi & Hm & -> & Hfl & Hall & Hbefore).
      exists i, it.
      split; [now apply lookup_app_l_Some|].
      do 3 (split; [first [reflexivity | assumption]|]).
      split.
      * intros j it' Hj. apply lookup_snoc_Some in Hj as [[_ Hj] | [_ <-]];
          [eauto | lia].
      * intros j it' Hlt Hj. apply lookup_snoc_Some in Hj as [[_ Hj] | [-> _]].
        -- eauto.
        -- apply lookup_lt_Some in Hi. lia.
    + intros [-> Hall]. split; [reflexivity|].
      intros j it' Hj. apply lookup_snoc_Some in Hj as [[_ Hj] | [_ <-]];
        [eauto | lia].
Qed.

Lemma fold_pick_firstBest items :
  firstBest total make floor items (fold_left (pick total make floor) items (None, 0)).
Proof.
  induction items as [|x items IH] using rev_ind.
  - simpl. split; [reflexivity|]. intros j it Hj. discriminate.
  - rewrite fold_left_app. simpl. now apply pick_keeps_firstBest.
Qed.
End FirstBest.

Lemma faqStep_is_pick query st faq :
  faqStep (normalized query) (contentWords stopWordsFAQ (normalized query)) st faq
  = pick (fun f => faqScore query (faq_keywords f)) (faqMake query) 10 st faq.
Proof.
  unfold faqStep, pick, faqScore, faqMake. destruct st as [best hi]. simpl.
  destruct (scoreKeywords _ _ _) as [score mk]. reflexivity.
Qed.

Lemma navStep_is_pick query st item :
  navStep (normalized query) (contentWords stopWordsNav (normalized query)) st item
  = pick (fun i => navScore query (nav_keywords i)) (navMake query) 1 st item.
Proof.
  unfold navStep, pick, navScore, navMake. destruct st as [best hi]. simpl.
  destruct (scoreKeywords _ _ _) as [score mk]. simpl.
  replace (1 <=? score) with (0 <? score); [reflexivity|].
  destruct (0 <? score) eqn:H; symmetry.
  - apply Z.ltb_lt in H. apply Z.leb_le. lia.
  - apply Z.ltb_ge in H. apply Z.leb_gt. lia.
Qed.

Lemma fold_left_ext_step {A B} (f g : A -> B -> A) (l : list B) (a : A) :
  (forall a b, f a b = g a b) -> fold_left f l a = fold_left g l a.
Proof.
  intros Hfg. revert a. induction l as [|b l IH]; intros a; simpl.
  - reflexivity.
  - rewrite Hfg. apply IH.
Qed.

Lemma matchFAQ_loop faqs query :
  firstBest (fun f => faqScore query (faq_keywords f)) (faqMake query) 10 faqs
    (fold_left (faqStep (normalized query)
                  (contentWords stopWordsFAQ (normalized query))) faqs (None, 0)).
Proof.
  rewrite (fold_left_ext_step _ _ _ _ (faqStep_is_pick query)).
  apply fold_pick_firstBest. lia.
Qed.

Lemma keywordMatch_loop siteMap query :
  firstBest (fun i => navScore query (nav_keywords i)) (navMake query) 1 siteMap
    (fold_left (navStep (normalized query)
                  (contentWords stopWordsNav (normalized query))) siteMap (None, 0)).
Proof.
  rewrite (fold_left_ext_step _ _ _ _ (navStep_is_pick query)).
  apply fold_pick_firstBest. lia.
Qed.

Lemma matchFAQ_selects (query : string) (faqs : list FaqEntry) :
  selectsFirstHighest
    (fun faq => faqScore query (faq_keywords faq))
    (fun m faq => fm_faq m = faq) fm_score
    faqs (matchFAQ faqs query).
Proof.
  pose proof (matchFAQ_loop faqs query) as H.
  unfold matchFAQ. fold (normalized query).
  destruct (fold_left _ faqs (None, 0)) as [best hi].
  unfold firstBest in H. simpl in H. unfold selectsFirstHighest. simpl.
  destruct best as [m|].
  - destruct H as (i & faq & Hi & -> & -> & Hfl & Hall & Hbefore).
    exists i, faq. unfold faqMake, faqScore in *. simpl. repeat split; auto.
  - destruct H as [_ Hall]. exact Hall.
Qed.

Lemma keywordMatch_selects (query : string) (siteMap : list NavItem) :
  selectsFirstHighest
    (fun item => navScore query (nav_keywords item))
    (fun m item => nm_url m = nav_url item /\ nm_intent m = nav_intent item) nm_score
    siteMap (keywordMatch siteMap query).
Proof.
  pose proof (keywordMatch_loop siteMap query) as H.
  unfold keywordMatch. fold (normalized query).
  destruct (fold_left _ siteMap (None, 0)) as [best hi].
  unfold firstBest in H. simpl in H. unfold selectsFirstHighest.
  destruct best as [m|].
  - destruct H as (i & item & Hi & -> & -> & Hfl & Hall & Hbefore).
    destruct (10 <=? navScore query (nav_keywords item)) eqn:Hten.
    + apply Z.leb_le in Hten.
      exists i, item. unfold navMake, navScore in *. simpl. repeat split; auto.
    + apply Z.leb_gt in Hten. intros j it Hj.
      specialize (Hall j it Hj). simpl in Hall. lia.
  - destruct H as [_ Hall]. intros j it Hj.
    specialize (Hall j it Hj). simpl in Hall. lia.
Qed.

(** A matcher that selects the first highest item returns none as soon
    as every item is below 10. *)
Lemma selectsFirstHighest_none {Item Match : Type}
    (total : Item -> Z) (itemOf : Match -> Item -> Prop) (scoreOf : Match -> Z)
    (items : list Item) (result : option Match) :
  selectsFirstHighest total itemOf scoreOf items result ->
  (forall j it, items !! j = Some it -> total it < 10) ->
  result = None.
Proof.
  intros Hsel Hlow. destruct result as [m|]; [|reflexivity].
  destruct Hsel as (i & it & Hi & _ & Hscore & Hten & _).
  specialize (Hlow i it Hi). lia.
Qed.

(** C7. For every query and item set, each matcher returns an item whose
    total score is at least 10, is not exceeded by any item and is strictly
    above the score of every item before it in iteration order (so among
    items of equal score the first one is kept); it returns none when no
    item reaches 10, and then only, in particular on an empty item
    set. *)
Theorem best_match_is_first_highest
    (query : string) (faqs : list FaqEntry) (siteMap : list NavItem) :
  selectsFirstHighest
    (fun faq => faqScore query (faq_keywords faq))
    (fun m faq => fm_faq m = faq) fm_score
    faqs (matchFAQ faqs query)
  /\ selectsFirstHighest
       (fun item => navScore query (nav_keywords item))
       (fun m item => nm_url m = nav_url item /\ nm_intent m = nav_intent item) nm_score
       siteMap (keywordMatch siteMap query)
  /\ ((forall j faq, faqs !! j = Some faq -> faqScore query (faq_keywords faq) < 10) ->
      matchFAQ faqs query = None)
  /\ ((forall j item, siteMap !! j = Some item -> navScore query (nav_keywords item) < 10) ->
      keywordMatch siteMap query = None)
  /\ matchFAQ [] query = None
  /\ keywordMatch [] query = None.
Proof.
  split; [apply matchFAQ_selects|].
  split; [apply keywordMatch_selects|].
  split; [apply (selectsFirstHighest_none _ _ _ _ _ (matchFAQ_selects query faqs))|].
  split; [apply (selectsFirstHighest_none _ _ _ _ _ (keywordMatch_selects query siteMap))|].
  split; reflexivity.
Qed.

Lemma best_match_witness :
  matchFAQ [narxEntry] "salom" = None
  /\ keywordMatch [aboutItem] "salom" = None.
Proof.
  destruct (best_match_is_first_highest "salom" [narxEntry] [aboutItem])
    as (_ & _ & Hfaq & Hnav & _).
  split.
  - apply Hfaq. intros [|j] faq Hj; [|discriminate].
    injection Hj as <-. vm_compute. reflexivity.
  - apply Hnav. intros [|j] item Hj; [|discriminate].
    injection Hj as <-. vm_compute. reflexivity.
Defined.

(** Two entries with the same score: the one that comes first is kept,
    whichever it is. *)
Example tie_keeps_first_entry :
  fm_faq <$> matchFAQ [narxEntry; mkFaqEntry "3" "Narx" "Javob" "umumiy" ["narx"]] "narx"
  = Some narxEntry
  /\ fm_faq <$> matchFAQ [mkFaqEntry "3" "Narx" "Javob" "umumiy" ["narx"]; narxEntry] "narx"
     = Some (mkFaqEntry "3" "Narx" "Javob" "umumiy" ["narx"]).
Proof. split; reflexivity. Qed.

(** ** The four scoring rules *)

Lemma keywordStep_adds q queryWords score matched keyword :
  fst (keywordStep q queryWords (score, matched) keyword)
  = score + contribution q queryWords keyword.
Proof.
  unfold contribution, keywordStep.
  repeat match goal with
         | |- context [if ?b then _ else _] => destruct b
         end; simpl; lia.
Qed.

Lemma fold_keywordStep_adds q queryWords keywords acc :
  fst (fold_left (keywordStep q queryWords) keywords acc)
  = fst acc + fst (fold_left (keywordStep q queryWords) keywords (0, [])).
Proof.
  revert acc. induction keywords as [|k keywords IH]; intros [score matched];
    cbn [fold_left fst].
  - lia.
  - rewrite IH. rewrite (IH (keywordStep q queryWords (0, []) k)).
    rewrite keywordStep_adds. fold (contribution q queryWords k). lia.
Qed.

(** The score of an item is the sum of what its keywords add: replacing
    one keyword changes the total by the difference of the two
    contributions. *)
Lemma scoreKeywords_split q queryWords pre k post :
  fst (scoreKeywords q queryWords (pre ++ k :: post))
  = fst (scoreKeywords q queryWords pre) + contribution q queryWords k
    + fst (scoreKeywords q queryWords post).
Proof.
  unfold scoreKeywords. rewrite fold_left_app. cbn [fold_left].
  rewrite fold_keywordStep_adds.
  destruct (fold_left (keywordStep q queryWords) pre (0, [])) as [score matched].
  rewrite keywordStep_adds. simpl. lia.
Qed.

Lemma exactHit_contribution q queryWords keyword :
  exactHit q keyword = true -> contribution q queryWords keyword = 100.
Proof.
  unfold exactHit, contribution, keywordStep. intros ->. reflexivity.
Qed.

Lemma phraseHit_contribution q queryWords keyword :
  phraseHit q keyword = true -> contribution q queryWords keyword = 50.
Proof.
  unfold phraseHit, exactHit, containsEither, contribution, keywordStep.
  intros H. apply andb_true_iff in H as [Hne Hc].
  apply negb_true_iff in Hne. rewrite Hne, Hc. reflexivity.
Qed.

Lemma multiWordHit_contribution q queryWords keyword :
  multiWordHit q queryWords keyword = true ->
  contribution q queryWords keyword = 30 * Z.of_nat (wordCount keyword)
  /\ (2 <= wordCount keyword)%nat.
Proof.
  unfold multiWordHit, allWordsHit, exactHit, containsEither, contribution,
    keywordStep, wordCount.
  intros H. apply andb_true_iff in H as [H Hall].
  apply andb_true_iff in H as [Hne Hnc].
  apply negb_true_iff in Hne, Hnc. rewrite Hne, Hnc, Hall. simpl.
  split; [reflexivity|].
  apply andb_true_iff in Hall as [_ Hlen]. apply Nat.ltb_lt in Hlen. lia.
Qed.

Lemma singleWordHit_contribution q queryWords keyword :
  singleWordHit q queryWords keyword = true ->
  contribution q queryWords keyword = 10.
Proof.
  unfold singleWordHit, allWordsHit, exactHit, containsEither, contribution,
    keywordStep, wordCount.
  intros H. apply andb_true_iff in H as [H Hsome].
  apply andb_true_iff in H as [H Hone].
  apply andb_true_iff in H as [H Hnall].
  apply andb_true_iff in H as [Hne Hnc].
  apply negb_true_iff in Hne, Hnc, Hnall.
  rewrite Hne, Hnc, Hnall, Hone, Hsome. reflexivity.
Qed.

(** For the query "qancha narx" the keyword "narx" is contained in the
    query and adds 50, while the two-word keyword "narx qancha" matches word
    by word and adds 60. *)
Lemma substring_scores_below_multiword :
  phraseHit "qancha narx" "narx" = true
  /\ multiWordHit "qancha narx" (contentWords stopWordsFAQ "qancha narx") "narx qancha" = true
  /\ faqScore "qancha narx" ["narx"] = 50
  /\ faqScore "qancha narx" ["narx qancha"] = 60
  /\ ~ ruleChainStrictlyDecreasing.
Proof.
  repeat split; try reflexivity.
  intros Hclaim.
  destruct (Hclaim "qancha narx" (contentWords stopWordsFAQ "qancha narx")
              "narx" "narx qancha") as (_ & H & _).
  specialize (H eq_refl eq_refl). vm_compute in H. discriminate.
Qed.

(** C3, amended.  Per keyword the rules add 100 (exact), 50 (substring),
    30 times the number of words with at least two words, hence at least
    60 (multi-word), and 10 (single-word).  Between two items that differ
    in one keyword only: exact beats substring, each of exact, substring
    and multi-word beats single-word, and multi-word beats substring. *)
Theorem rule_contributions_ordered
    (q : string) (queryWords pre post : list string) (k1 k2 : string) :
  let total k := fst (scoreKeywords q queryWords (pre ++ k :: post)) in
  (exactHit q k1 = true -> contribution q queryWords k1 = 100)
  /\ (phraseHit q k1 = true -> contribution q queryWords k1 = 50)
  /\ (multiWordHit q queryWords k1 = true ->
      contribution q queryWords k1 = 30 * Z.of_nat (wordCount k1)
      /\ 60 <= contribution q queryWords k1)
  /\ (singleWordHit q queryWords k1 = true -> contribution q queryWords k1 = 10)
  /\ (exactHit q k1 = true -> phraseHit q k2 = true -> total k2 < total k1)
  /\ (exactHit q k1 = true -> singleWordHit q queryWords k2 = true -> total k2 < total k1)
  /\ (phraseHit q k1 = true -> singleWordHit q queryWords k2 = true -> total k2 < total k1)
  /\ (multiWordHit q queryWords k1 = true -> singleWordHit q queryWords k2 = true ->
      total k2 < total k1)
  /\ (multiWordHit q queryWords k1 = true -> phraseHit q k2 = true -> total k2 < total k1).
Proof.
  intros total. subst total. cbv beta.
  rewrite !scoreKeywords_split.
  pose proof (exactHit_contribution q queryWords k1) as E1.
  pose proof (phraseHit_contribution q queryWords k1) as P1.
  pose proof (phraseHit_contribution q queryWords k2) as P2.
  pose proof (multiWordHit_contribution q queryWords k1) as M1.
  pose proof (singleWordHit_contribution q queryWords k1) as S1.
  pose proof (singleWordHit_contribution q queryWords k2) as S2.
  repeat split; intros;
    repeat match goal with
           | H : ?h = true, I : ?h = true -> _ |- _ => specialize (I H)
           end;
    repeat match goal with
           | I : _ /\ _ |- _ => destruct I
           end;
    lia.
Qed.

Lemma rule_contributions_witness :
  exactHit "narx qancha" "Narx Qancha" = true
  /\ phraseHit "narx qancha" "narx" = true
  /\ fst (scoreKeywords "narx qancha" ["narx"; "qancha"] (["yetkazish"] ++ "narx" :: []))
     < fst (scoreKeywords "narx qancha" ["narx"; "qancha"] (["yetkazish"] ++ "Narx Qancha" :: [])).
Proof.
  split; [reflexivity | split; [reflexivity|]].
  destruct (rule_contributions_ordered "narx qancha" ["narx"; "qancha"]
              ["yetkazish"] [] "Narx Qancha" "narx") as (_ & _ & _ & _ & H & _).
  apply H; reflexivity.
Defined.

(** ** The scenario "narx qancha" *)

(** C4 as the specification words it gives the keyword "narx" a score of
    10.  The query contains that keyword, so the substring branch is taken
    before the single-word branch is looked at, and the score is 50. *)
Lemma narx_scores_50_not_10 :
  phraseHit (normalized "narx qancha") "narx" = true
  /\ singleWordHit (normalized "narx qancha")
       (contentWords stopWordsFAQ (normalized "narx qancha")) "narx" = false
  /\ faqScore "narx qancha" ["narx"] = 50
  /\ ~ (faqScore "narx qancha" ["narx"] = 10
        /\ faqScore "narx qancha" ["narx qancha"] = 100).
Proof.
  repeat split; try reflexivity.
  intros [H _]. vm_compute in H. discriminate.
Qed.

(** C4, amended.  For the query "narx qancha" an entry whose only keyword
    is "narx" scores 50 (substring containment) and an entry whose only
    keyword is "narx qancha" scores 100 (exact match); [matchFAQ] returns
    the second entry, with score 100, in whichever order the two stand. *)
Theorem narx_qancha_selects_exact_entry (e1 e2 : FaqEntry) :
  faq_keywords e1 = ["narx"] ->
  faq_keywords e2 = ["narx qancha"] ->
  faqScore "narx qancha" (faq_keywords e1) = 50
  /\ faqScore "narx qancha" (faq_keywords e2) = 100
  /\ matchFAQ [e1; e2] "narx qancha" = Some (mkFaqMatch e2 true 100 ["narx qancha"])
  /\ matchFAQ [e2; e1] "narx qancha" = Some (mkFaqMatch e2 true 100 ["narx qancha"]).
Proof.
  intros H1 H2. rewrite H1, H2.
  split; [reflexivity | split; [reflexivity|]].
  unfold matchFAQ. cbn [fold_left]. unfold faqStep. rewrite H1, H2.
  split; reflexivity.
Qed.

Lemma narx_qancha_witness :
  matchFAQ [narxEntry; narxQanchaEntry] "narx qancha"
  = Some (mkFaqMatch narxQanchaEntry true 100 ["narx qancha"]).
Proof.
  destruct (narx_qancha_selects_exact_entry narxEntry narxQanchaEntry)
    as (_ & _ & H & _); [reflexivity | reflexivity | exact H].
Defined.

(** ** The two stop-word lists *)

Lemma arrayIncludes_app (xs ys : list string) (w : string) :
  JS.arrayIncludes (xs ++ ys) w = JS.arrayIncludes xs w || JS.arrayIncludes ys w.
Proof. unfold JS.arrayIncludes. apply existsb_app. Qed.

Lemma filter_twice {A} (f g : A -> bool) (l : list A) :
  List.filter g (List.filter f l) = List.filter (fun x => f x && g x) l.
Proof.
  induction l as [|x l IH]; [reflexivity|].
  cbn [List.filter]. destruct (f x); cbn [andb List.filter]; rewrite IH; reflexivity.
Qed.

(** Adding stop words removes exactly the added words from the content
    words. *)
Lemma contentWords_more_stop_words (base extra : list string) (q : string) :
  contentWords (base ++ extra) q
  = List.filter (fun w => negb (JS.arrayIncludes extra w)) (contentWords base q).
Proof.
  unfold contentWords. rewrite filter_twice. apply List.filter_ext.
  intros w. rewrite arrayIncludes_app, negb_orb. apply andb_assoc.
Qed.

(** The content words of [matchFAQ] are those of [keywordMatch] without
    "nima" and "qanday". *)
Lemma contentWords_FAQ_from_Nav (q : string) :
  contentWords stopWordsFAQ q
  = List.filter (fun w => negb (JS.arrayIncludes ["nima"; "qanday"] w))
      (contentWords stopWordsNav q).
Proof.
  change stopWordsFAQ with (stopWordsNav ++ ["nima"; "qanday"])%list.
  apply contentWords_more_stop_words.
Qed.

(** On a one-entry item set a matcher returns the entry, with its total
    score, exactly when that score reaches 10. *)
Lemma matchFAQ_single (e : FaqEntry) (query : string) :
  matchFAQ [e] query
  = if 10 <=? faqScore query (faq_keywords e) then Some (faqMake query e) else None.
Proof.
  unfold matchFAQ, faqScore, faqMake. fold (normalized query).
  cbn [fold_left]. unfold faqStep.
  destruct (scoreKeywords _ _ _) as [score matched]. cbn [fst snd].
  destruct (10 <=? score) eqn:Hten.
  - apply Z.leb_le in Hten.
    replace (0 <? score) with true by (symmetry; apply Z.ltb_lt; lia). reflexivity.
  - rewrite andb_false_r. reflexivity.
Qed.

Lemma keywordMatch_single (item : NavItem) (query : string) :
  keywordMatch [item] query
  = if 10 <=? navScore query (nav_keywords item) then Some (navMake query item) else None.
Proof.
  unfold keywordMatch, navScore, navMake. fold (normalized query).
  cbn [fold_left]. unfold navStep.
  destruct (scoreKeywords _ _ _) as [score matched]. cbn [fst snd].
  destruct (0 <? score) eqn:Hpos; cbn [andb].
  - reflexivity.
  - apply Z.ltb_ge in Hpos.
    replace (10 <=? score) with false by (symmetry; apply Z.leb_gt; lia). reflexivity.
Qed.

(** C10. The stop-word list of [matchFAQ] is that of [keywordMatch]
    followed by "nima" and "qanday".  On a one-entry item set each matcher
    returns the entry with the score of its own loop when that score reaches
    10.  For the queries "bu qanday" and "bu nima", whose only token longer
    than two characters is the stop word, the navigation loop gives the
    keyword list ["qandaydir"] (respectively ["nimadir"]) the single-word
    fuzzy score 10 and the FAQ loop gives it 0, so [keywordMatch] returns a
    match of score 10 where [matchFAQ], on an entry with the very same
    keyword list, returns nothing; the two scoring functions differ, and so
    do the scores the two matchers report. *)
Theorem matchers_differ_on_stop_words :
  stopWordsFAQ = (stopWordsNav ++ ["nima"; "qanday"])%list
  /\ (forall (e : FaqEntry) (item : NavItem) (query : string),
        matchFAQ [e] query
        = (if 10 <=? faqScore query (faq_keywords e)
           then Some (faqMake query e) else None)
        /\ fm_score (faqMake query e) = faqScore query (faq_keywords e)
        /\ keywordMatch [item] query
           = (if 10 <=? navScore query (nav_keywords item)
              then Some (navMake query item) else None)
        /\ nm_score (navMake query item) = navScore query (nav_keywords item))
  /\ (List.filter (fun w => (2 <? String.length w)%nat) (JS.split (normalized "bu qanday"))
       = ["qanday"]
      /\ contentWords stopWordsFAQ (normalized "bu qanday") = []
      /\ contentWords stopWordsNav (normalized "bu qanday") = ["qanday"]
      /\ faqScore "bu qanday" ["qandaydir"] = 0
      /\ navScore "bu qanday" ["qandaydir"] = 10)
  /\ (forall (e : FaqEntry) (item : NavItem),
        faq_keywords e = ["qandaydir"] ->
        nav_keywords item = ["qandaydir"] ->
        matchFAQ [e] "bu qanday" = None
        /\ keywordMatch [item] "bu qanday"
           = Some (mkNavMatch (nav_url item) (nav_intent item) true 10 ["qandaydir"]))
  /\ (List.filter (fun w => (2 <? String.length w)%nat) (JS.split (normalized "bu nima"))
       = ["nima"]
      /\ faqScore "bu nima" ["nimadir"] = 0
      /\ navScore "bu nima" ["nimadir"] = 10)
  /\ (forall (e : FaqEntry) (item : NavItem),
        faq_keywords e = ["nimadir"] ->
        nav_keywords item = ["nimadir"] ->
        matchFAQ [e] "bu nima" = None
        /\ keywordMatch [item] "bu nima"
           = Some (mkNavMatch (nav_url item) (nav_intent item) true 10 ["nimadir"]))
  /\ (exists query keywords, faqScore query keywords <> navScore query keywords)
  /\ faqScore <> navScore
  /\ (fun query keywords =>
        fm_score <$> matchFAQ [mkFaqEntry "" "" "" "" keywords] query)
     <> (fun query keywords =>
           nm_score <$> keywordMatch [mkNavItem "" "" keywords] query).
Proof.
  split; [reflexivity|].
  split.
  { intros e item query.
    split; [apply matchFAQ_single|]. split; [reflexivity|].
    split; [apply keywordMatch_single | reflexivity]. }
  split; [repeat split; reflexivity|].
  split.
  { intros e item He Hi. rewrite matchFAQ_single, keywordMatch_single.
    unfold faqScore, navScore, navMake. rewrite He, Hi. split; reflexivity. }
  split; [repeat split; reflexivity|].
  split.
  { intros e item He Hi. rewrite matchFAQ_single, keywordMatch_single.
    unfold faqScore, navScore, navMake. rewrite He, Hi. split; reflexivity. }
  split.
  { exists "bu qanday", ["qandaydir"]. vm_compute. discriminate. }
  split.
  - intros Heq.
    assert (H : faqScore "bu qanday" ["qandaydir"] = navScore "bu qanday" ["qandaydir"])
      by now rewrite Heq.
    vm_compute in H. discriminate.
  - intros Heq.
    assert (H : fm_score <$> matchFAQ [mkFaqEntry "" "" "" "" ["qandaydir"]] "bu qanday"
                = nm_score <$> keywordMatch [mkNavItem "" "" ["qandaydir"]] "bu qanday")
      by exact (f_equal (fun f => f "bu qanday" ["qandaydir"]) Heq).
    vm_compute in H. discriminate.
Qed.

Lemma matchers_differ_witness :
  matchFAQ [mkFaqEntry "7" "Qanday?" "Shunday" "umumiy" ["qandaydir"]] "bu qanday" = None
  /\ keywordMatch [mkNavItem "/qanday" "Qanday" ["qandaydir"]] "bu qanday"
     = Some (mkNavMatch "/qanday" "Qanday" true 10 ["qandaydir"]).
Proof.
  destruct matchers_differ_on_stop_words as (_ & _ & _ & H & _).
  apply (H (mkFaqEntry "7" "Qanday?" "Shunday" "umumiy" ["qandaydir"])
           (mkNavItem "/qanday" "Qanday" ["qandaydir"])); reflexivity.
Defined.

(** ** The cascade *)

Lemma aiMatch_run siteMap query oracle log :
  aiMatch siteMap query oracle log
  = (Ok match oracle (mkChatRequest query (sectionsFrom 0 siteMap)) with
        | Resolved (Some content) =>
            if String.eqb (JS.trim content) "NOT_FOUND" then aiNotFound
            else match List.find (fun item => String.eqb (nav_url item) (JS.trim content))
                         siteMap with
                 | Some foundItem =>
                     mkAiResult (JS.trim content) (Some (nav_intent foundItem)) true
                 | None => aiNotFound
                 end
        | Resolved None | Rejected _ => aiNotFound
        end,
     (log ++ [StageAI])%list).
Proof.
  unfold aiMatch, chatCompletionContent.
  unfold bind, enter, tryCatch, await, throw, ret. cbv beta zeta iota.
  destruct (oracle _) as [reason | [content|]]; cbn.
  - reflexivity.
  - destruct (String.eqb (JS.trim content) "NOT_FOUND"); [reflexivity|].
    destruct (List.find _ siteMap); reflexivity.
  - reflexivity.
Qed.

(** C2. [detectNavigation] enters the stages in the order FAQ, keyword,
    AI and stops at the first that matches: on a FAQ match the decision is
    FAQ and only the FAQ stage was entered; otherwise on a keyword match
    the decision is NAVIGATION and the AI stage was not entered; the AI
    stage is entered exactly when both matchers return nothing. *)
Theorem cascade_short_circuits
    (faqs : list FaqEntry) (siteMap : list NavItem) (query : string)
    (oracle : ChatRequest -> Completion) :
  match matchFAQ faqs query with
  | Some faq =>
      run (detectNavigation faqs siteMap query) oracle = (Ok (FAQ faq), [StageFAQ])
  | None =>
      match keywordMatch siteMap query with
      | Some m =>
          run (detectNavigation faqs siteMap query) oracle
          = (Ok (NAVIGATION (nm_url m) (Some (nm_intent m))
                   (Some (nm_score m, nm_matchedKeywords m))),
             [StageFAQ; StageKeyword])
      | None =>
          snd (run (detectNavigation faqs siteMap query) oracle)
          = [StageFAQ; StageKeyword; StageAI]
      end
  end
  /\ (In StageAI (snd (run (detectNavigation faqs siteMap query) oracle))
      <-> matchFAQ faqs query = None /\ keywordMatch siteMap query = None)
  /\ (In StageKeyword (snd (run (detectNavigation faqs siteMap query) oracle))
      <-> matchFAQ faqs query = None).
Proof.
  unfold run, detectNavigation, invoke, bind, enter, ret.
  destruct (matchFAQ faqs query) as [faq|]; simpl.
  - split; [reflexivity|]. split; split.
    + intros [H|[]]. discriminate.
    + intros [H _]. discriminate.
    + intros [H|[]]. discriminate.
    + discriminate.
  - destruct (keywordMatch siteMap query) as [m|]; simpl.
    + split; [reflexivity|]. split; split; auto.
      * intros [H|[H|[]]]; discriminate.
      * intros [_ H]. discriminate.
    + rewrite aiMatch_run.
      match goal with |- context [ai_matched ?r] => destruct (ai_matched r) end; simpl;
        (split; [reflexivity|]); split; split; auto.
Qed.

(** ** The reply of the AI classifier *)

(** The classifier answers "/about " with a trailing space; the site map
    has "/about" only, and the decision is NAVIGATION to "/about", because
    the reply is trimmed before it is compared. *)
Lemma padded_reply_still_navigates :
  matchFAQ [] "salom" = None
  /\ keywordMatch [aboutItem] "salom" = None
  /\ (forall item, In item [aboutItem] -> nav_url item <> "/about ")
  /\ fst (run (detectNavigation [] [aboutItem] "salom")
            (fun _ => Resolved (Some "/about ")))
     = Ok (NAVIGATION "/about" (Some "Biz haqimizda") None)
  /\ ~ navigationOnlyForReturnedString.
Proof.
  split; [reflexivity|]. split; [reflexivity|].
  assert (Hnot : forall item, In item [aboutItem] -> nav_url item <> "/about ").
  { intros item [<-|[]]. discriminate. }
  split; [exact Hnot|]. split; [reflexivity|].
  intros Hclaim.
  destruct (Hclaim [] [aboutItem] "salom" (fun _ => Resolved (Some "/about "))
              "/about " "/about" (Some "Biz haqimizda") None
              eq_refl eq_refl eq_refl eq_refl) as (item & Hin & Hurl).
  exact (Hnot item Hin Hurl).
Qed.

(** C6, amended.  When both matchers miss, [detectNavigation] always ends
    in a decision, never in a thrown error.  The decision is NAVIGATION
    only if the classifier resolved with a string whose trimmed form is
    the url of a site-map entry (and is not the sentinel); then the url
    of the decision is that trimmed string.  A trimmed reply that is no
    url of the site map, the sentinel "NOT_FOUND", a rejected call and a
    response without readable content all give NOT_FOUND. *)
Theorem ai_reply_is_validated
    (faqs : list FaqEntry) (siteMap : list NavItem) (query : string)
    (oracle : ChatRequest -> Completion) :
  matchFAQ faqs query = None ->
  keywordMatch siteMap query = None ->
  let reply := oracle (mkChatRequest query (sectionsFrom 0 siteMap)) in
  let outcome := fst (run (detectNavigation faqs siteMap query) oracle) in
  (exists decision, outcome = Ok decision)
  /\ (forall url intent lexical,
        outcome = Ok (NAVIGATION url intent lexical) ->
        exists content item,
          reply = Resolved (Some content) /\ url = JS.trim content
          /\ url <> "NOT_FOUND"
          /\ In item siteMap /\ nav_url item = url
          /\ intent = Some (nav_intent item) /\ lexical = None)
  /\ (forall content,
        reply = Resolved (Some content) ->
        (forall item, In item siteMap -> nav_url item <> JS.trim content) ->
        outcome = Ok NOT_FOUND)
  /\ (forall content,
        reply = Resolved (Some content) -> JS.trim content = "NOT_FOUND" ->
        outcome = Ok NOT_FOUND)
  /\ (forall reason, reply = Rejected reason -> outcome = Ok NOT_FOUND)
  /\ (reply = Resolved None -> outcome = Ok NOT_FOUND).
Proof.
  intros Hfaq Hkw reply outcome. subst outcome.
  unfold run, detectNavigation, invoke, bind, enter, ret.
  rewrite Hfaq. cbn iota beta. rewrite Hkw. cbn iota beta.
  rewrite aiMatch_run. fold reply.
  destruct reply as [reason | [content|]] eqn:Hreply; cbn.
  - repeat split; eauto; intros; discriminate.
  - destruct (String.eqb (JS.trim content) "NOT_FOUND") eqn:Hsentinel; cbn.
    + repeat split; eauto; intros; discriminate.
    + apply String.eqb_neq in Hsentinel.
      destruct (List.find _ siteMap) as [foundItem|] eqn:Hfind; cbn.
      * apply List.find_some in Hfind as [Hin Hurl].
        apply String.eqb_eq in Hurl.
        split; [eauto|]. split.
        { intros url intent lexical [= <- <- <-].
          exists content, foundItem. repeat split; auto. }
        split.
        { intros content' [= <-] Hnone. exfalso. exact (Hnone foundItem Hin Hurl). }
        split.
        { intros content' [= <-] Hs. contradiction. }
        split; intros; discriminate.
      * repeat split; eauto; intros; discriminate.
  - repeat split; eauto; intros; discriminate.
Qed.

Lemma ai_reply_witness :
  matchFAQ [] "salom" = None
  /\ keywordMatch [aboutItem] "salom" = None
  /\ fst (run (detectNavigation [] [aboutItem] "salom")
            (fun _ => Resolved (Some "/contacts")))
     = Ok NOT_FOUND
  /\ fst (run (detectNavigation [] [aboutItem] "salom")
            (fun _ => Rejected "ETIMEDOUT"))
     = Ok NOT_FOUND.
Proof.
  split; [reflexivity|]. split; [reflexivity|]. split.
  - destruct (ai_reply_is_validated [] [aboutItem] "salom"
                (fun _ => Resolved (Some "/contacts")) eq_refl eq_refl)
      as (_ & _ & H & _).
    apply (H "/contacts"); [reflexivity|].
    intros item [<-|[]]. discriminate.
  - destruct (ai_reply_is_validated [] [aboutItem] "salom"
                (fun _ => Rejected "ETIMEDOUT") eq_refl eq_refl)
      as (_ & _ & _ & _ & H & _).
    apply (H "ETIMEDOUT"). reflexivity.
Defined.

End AiServiceFacts.

(** * Further properties of the rate limiter *)

Module RateLimiterMore.
Import RateLimiter RateLimiterSpec.

(** ** One request at a time *)

(** X1. A request changes no record but the one of its own identifier. *)
Theorem other_clients_untouched
    (req : Request) (now : Z) (w : WriteOutcome) (st : Limiter) (identifier : string) :
  identifier <> identifierOf req ->
  requestStore (snd (rateLimiter req now w st)) !! identifier
  = requestStore st !! identifier.
Proof.
  intros Hne. unfold rateLimiter, bind, storeGet, ret.
  destruct (requestStore st !! identifierOf req) as [r|].
  - destruct (WINDOW_MS <? now - firstRequest r).
    + destruct w; simpl; now rewrite lookup_insert_ne.
    + destruct (MAX_REQUESTS <=? count r); [reflexivity|].
      cbn [count].
      destruct (Z.rem (count r + 1) 5 =? 0);
        [destruct w|]; simpl; now rewrite lookup_insert_ne.
  - destruct w; simpl; now rewrite lookup_insert_ne.
Qed.

Lemma other_clients_witness :
  requestStore (snd (rateLimiter (mkRequest (Some "198.51.100.9") None None)
                       2000 Written fullState))
    !! identifierOf sampleRequest
  = Some fullRecord.
Proof.
  rewrite (other_clients_untouched (mkRequest (Some "198.51.100.9") None None)
             2000 Written fullState (identifierOf sampleRequest)).
  - vm_compute. reflexivity.
  - vm_compute. discriminate.
Defined.

(** X2. Whether the write to the file succeeds or fails changes neither
    the verdict nor the in-memory map. *)
Theorem write_outcome_does_not_change_decision
    (req : Request) (now : Z) (w w' : WriteOutcome) (st : Limiter) :
  fst (rateLimiter req now w st) = fst (rateLimiter req now w' st)
  /\ requestStore (snd (rateLimiter req now w st))
     = requestStore (snd (rateLimiter req now w' st)).
Proof.
  unfold rateLimiter, bind, storeGet, ret.
  destruct (requestStore st !! identifierOf req) as [r|].
  - destruct (WINDOW_MS <? now - firstRequest r).
    + destruct w, w'; split; reflexivity.
    + destruct (MAX_REQUESTS <=? count r); [split; reflexivity|].
      cbn [count]. destruct (Z.rem (count r + 1) 5 =? 0);
        [destruct w, w'|]; split; reflexivity.
  - destruct w, w'; split; reflexivity.
Qed.

(** X3. [getRateLimitStatus] reports [isLimited] exactly when a request of
    the same client at the same instant would be refused. *)
Theorem status_limited_iff_request_refused
    (req : Request) (now : Z) (w : WriteOutcome) (st : Limiter) :
  isLimited (fst (getRateLimitStatus req now st)) = true
  <-> ~ allowed (fst (rateLimiter req now w st)).
Proof.
  unfold getRateLimitStatus, rateLimiter, bind, storeGet, ret.
  destruct (requestStore st !! identifierOf req) as [r|].
  - destruct (WINDOW_MS <? now - firstRequest r); simpl.
    + split; [discriminate | intros H; exfalso; apply H; exact I].
    + destruct (MAX_REQUESTS <=? count r); simpl.
      * split; [intros _ H; exact H | reflexivity].
      * cbn [count]. destruct (Z.rem (count r + 1) 5 =? 0); simpl;
          (split; [discriminate | intros H; exfalso; apply H; exact I]).
  - simpl. split; [discriminate | intros H; exfalso; apply H; exact I].
Qed.

(** The record of the requesting client after its request, and what
    [getRateLimitStatus] computes from a record. *)
Lemma own_record_after_request req now w st :
  requestStore (snd (rateLimiter req now w st)) !! identifierOf req
  = match requestStore st !! identifierOf req with
    | None => Some (mkRecord 1 now now)
    | Some r =>
        if WINDOW_MS <? now - firstRequest r then Some (mkRecord 1 now now)
        else if MAX_REQUESTS <=? count r then Some r
        else Some (mkRecord (count r + 1) (firstRequest r) now)
    end.
Proof.
  unfold rateLimiter, bind, storeGet, ret.
  destruct (requestStore st !! identifierOf req) as [r|] eqn:Hget.
  - destruct (WINDOW_MS <? now - firstRequest r).
    + destruct w; simpl; apply lookup_insert_eq.
    + destruct (MAX_REQUESTS <=? count r); [exact Hget|].
      cbn [count]. destruct (Z.rem (count r + 1) 5 =? 0);
        [destruct w|]; simpl; apply lookup_insert_eq.
  - destruct w; simpl; apply lookup_insert_eq.
Qed.

Lemma status_from_record req now st :
  fst (getRateLimitStatus req now st)
  = match requestStore st !! identifierOf req with
    | None => mkStatus MAX_REQUESTS None false
    | Some r =>
        if WINDOW_MS <? now - firstRequest r then mkStatus MAX_REQUESTS None false
        else mkStatus (Z.max 0 (MAX_REQUESTS - count r))
               (Some (firstRequest r + WINDOW_MS)) (MAX_REQUESTS <=? count r)
    end.
Proof.
  unfold getRateLimitStatus, bind, storeGet, ret.
  destruct (requestStore st !! identifierOf req) as [r|]; [|reflexivity].
  destruct (WINDOW_MS <? now - firstRequest r); reflexivity.
Qed.

Lemma verdict_from_record req now w st :
  fst (rateLimiter req now w st)
  = match requestStore st !! identifierOf req with
    | None => Next None
    | Some r =>
        if WINDOW_MS <? now - firstRequest r then Next None
        else if MAX_REQUESTS <=? count r then
          TooManyRequests (firstRequest r + WINDOW_MS) 0
            (ceilDiv (firstRequest r + WINDOW_MS - now) (1000 * 60 * 60))
        else Next (Some (mkHeaders MAX_REQUESTS (MAX_REQUESTS - (count r + 1))
                           (firstRequest r + WINDOW_MS)))
    end.
Proof.
  unfold rateLimiter, bind, storeGet, ret.
  destruct (requestStore st !! identifierOf req) as [r|].
  - destruct (WINDOW_MS <? now - firstRequest r).
    + destruct w; reflexivity.
    + destruct (MAX_REQUESTS <=? count r); [reflexivity|].
      cbn [count]. destruct (Z.rem (count r + 1) 5 =? 0); [destruct w|]; reflexivity.
  - destruct w; reflexivity.
Qed.

(** X4. Measured by [getRateLimitStatus] at the instant of the request, a
    request that is let through lowers [remaining] by exactly one, and a
    refused request finds and leaves it at zero. *)
Theorem each_allowed_request_uses_one
    (req : Request) (now : Z) (w : WriteOutcome) (st : Limiter) :
  let before := remaining (fst (getRateLimitStatus req now st)) in
  let after :=
    remaining (fst (getRateLimitStatus req now (snd (rateLimiter req now w st)))) in
  match fst (rateLimiter req now w st) with
  | Next _ => after = before - 1
  | TooManyRequests _ reported _ => reported = 0 /\ before = 0 /\ after = 0
  end.
Proof.
  cbv zeta.
  rewrite !status_from_record, own_record_after_request, verdict_from_record.
  unfold MAX_REQUESTS.
  destruct (requestStore st !! identifierOf req) as [r|].
  - destruct (WINDOW_MS <? now - firstRequest r) eqn:Hexp.
    + cbn [firstRequest]. rewrite Z.sub_diag. reflexivity.
    + destruct (30 <=? count r) eqn:Hfull.
      * apply Z.leb_le in Hfull. rewrite Hexp. simpl. lia.
      * apply Z.leb_gt in Hfull. cbn [firstRequest count]. rewrite Hexp. simpl. lia.
  - cbn [firstRequest]. rewrite Z.sub_diag. reflexivity.
Qed.

(** X5. When a refusal is issued, the number of hours quoted in its
    message is the time to the reset rounded up to whole hours, and it is
    never negative; it is at most 12 when the clock has not run backwards
    since the first request of the window. *)
Theorem refusal_quotes_hours_to_reset
    (req : Request) (now : Z) (w : WriteOutcome) (st : Limiter)
    (reset reported hours : Z) :
  fst (rateLimiter req now w st) = TooManyRequests reset reported hours ->
  reset - now <= hours * 3600000 < reset - now + 3600000
  /\ 0 <= hours
  /\ ((forall r, requestStore st !! identifierOf req = Some r -> firstRequest r <= now) ->
      hours <= 12).
Proof.
  rewrite verdict_from_record. intros Hv.
  destruct (requestStore st !! identifierOf req) as [r|]; [|discriminate].
  destruct (WINDOW_MS <? now - firstRequest r) eqn:Hexp; [discriminate|].
  apply Z.ltb_ge in Hexp.
  destruct (MAX_REQUESTS <=? count r); [|discriminate].
  injection Hv as <- _ <-. unfold ceilDiv, WINDOW_MS in *.
  change (1000 * 60 * 60) with 3600000.
  pose proof (Z.div_mod (- (firstRequest r + 12 * 60 * 60 * 1000 - now)) 3600000) as Hdm.
  pose proof (Z.mod_pos_bound (- (firstRequest r + 12 * 60 * 60 * 1000 - now)) 3600000) as Hm.
  split; [lia|]. split; [lia|].
  intros Hclock. specialize (Hclock r eq_refl). lia.
Qed.

Lemma refusal_hours_witness :
  fst (rateLimiter sampleRequest 2000 Written fullState)
    = TooManyRequests 43201000 0 12
  /\ 43201000 - 2000 <= 12 * 3600000 < 43201000 - 2000 + 3600000
  /\ 0 <= 12
  /\ 12 <= 12.
Proof.
  assert (Hv : fst (rateLimiter sampleRequest 2000 Written fullState)
               = TooManyRequests 43201000 0 12) by (vm_compute; reflexivity).
  split; [exact Hv|].
  destruct (refusal_quotes_hours_to_reset sampleRequest 2000 Written fullState
              43201000 0 12 Hv) as (Hceil & Hpos & Hmax).
  split; [exact Hceil|]. split; [exact Hpos|].
  apply Hmax. intros r Hr. vm_compute in Hr. injection Hr as <-.
  vm_compute. discriminate.
Defined.

(** X6. In a reachable state the headers set on a passing request carry
    the limit 30, a remaining count between 0 and 28, and the reset time
    of the stored record. *)
Theorem headers_stay_within_quota
    (st : Limiter) (req : Request) (now : Z) (w : WriteOutcome) (h : Headers) :
  reachable st ->
  fst (rateLimiter req now w st) = Next (Some h) ->
  xRateLimitLimit h = 30
  /\ 0 <= xRateLimitRemaining h <= 28
  /\ exists r, requestStore st !! identifierOf req = Some r
               /\ xRateLimitReset h = firstRequest r + WINDOW_MS
               /\ xRateLimitRemaining h = 30 - (count r + 1).
Proof.
  intros Hreach. rewrite verdict_from_record.
  destruct (RateLimiterFacts.reachable_bounded st Hreach) as [Hs _].
  destruct (requestStore st !! identifierOf req) as [r|] eqn:Hget; [|discriminate].
  specialize (Hs _ _ Hget). unfold countInRange, MAX_REQUESTS in *.
  destruct (WINDOW_MS <? now - firstRequest r); [discriminate|].
  destruct (30 <=? count r) eqn:Hfull; [discriminate|].
  apply Z.leb_gt in Hfull.
  intros [= <-]. simpl. split; [reflexivity|]. split; [lia|].
  exists r. auto.
Qed.

Lemma headers_witness :
  reachable afterTwoRequests
  /\ fst (rateLimiter sampleRequest 90 Written afterTwoRequests)
     = Next (Some (mkHeaders 30 27 43200050))
  /\ 0 <= 27 <= 28.
Proof.
  assert (Hreach : reachable afterTwoRequests).
  { unfold afterTwoRequests.
    eapply reachable_step; [eapply reachable_step; [apply reachable_start|]|];
      apply step_request. }
  assert (Hv : fst (rateLimiter sampleRequest 90 Written afterTwoRequests)
               = Next (Some (mkHeaders 30 27 43200050))) by (vm_compute; reflexivity).
  split; [exact Hreach | split; [exact Hv|]].
  exact (proj1 (proj2 (headers_stay_within_quota afterTwoRequests sampleRequest 90
                         Written (mkHeaders 30 27 43200050) Hreach Hv))).
Defined.

(** X7. A client without a record sends thirty requests, none later
    than twelve hours after the first: all thirty pass.  Its next request
    inside those twelve hours is refused with [remaining = 0] and a reset
    time twelve hours after the first request. *)
Theorem thirty_pass_then_refused
    (req : Request) (t0 : Z) (w0 : WriteOutcome) (arrivals : list (Z * WriteOutcome))
    (t : Z) (w : WriteOutcome) (st : Limiter) :
  requestStore st !! identifierOf req = None ->
  length arrivals = 29%nat ->
  Forall (fun a => a.1 - t0 <= WINDOW_MS) arrivals ->
  t - t0 <= WINDOW_MS ->
  length (fst (serve req ((t0, w0) :: arrivals) st)) = 30%nat
  /\ Forall allowed (fst (serve req ((t0, w0) :: arrivals) st))
  /\ exists hoursLeft,
       fst (rateLimiter req t w (snd (serve req ((t0, w0) :: arrivals) st)))
       = TooManyRequests (t0 + WINDOW_MS) 0 hoursLeft.
Proof.
  intros Hnew Hlen Hwin Ht.
  exact (RateLimiterFacts.request_after_quota_is_denied
           req t0 w0 arrivals t w st Hnew Hlen Hwin Ht).
Qed.

Lemma quota_scenario_witness :
  length (fst (serve sampleRequest ((0, Written) :: minuteArrivals) (startup NoFile)))
  = 30%nat
  /\ Forall allowed
       (fst (serve sampleRequest ((0, Written) :: minuteArrivals) (startup NoFile)))
  /\ exists hoursLeft,
       fst (rateLimiter sampleRequest 1800000 Written
              (snd (serve sampleRequest ((0, Written) :: minuteArrivals)
                      (startup NoFile))))
       = TooManyRequests (0 + WINDOW_MS) 0 hoursLeft.
Proof.
  apply (thirty_pass_then_refused sampleRequest 0 Written
           minuteArrivals 1800000 Written (startup NoFile)).
  - vm_compute. reflexivity.
  - reflexivity.
  - apply (bool_decide_unpack _). vm_compute. exact I.
  - vm_compute. discriminate.
Defined.

(** ** The sweep *)

#[local] Existing Instance RateLimiter.expired_dec.

Lemma sweep_store now w st :
  requestStore (snd (sweep now w st))
  = filter (fun kv => ~ expired now kv.2) (requestStore st).
Proof.
  unfold sweep. destruct (0 <? _)%nat; [destruct w|]; reflexivity.
Qed.

(** X8. After a sweep a client has a record exactly when it had that
    record before and the window of the record has not elapsed; the records
    that stay are unchanged. *)
Theorem sweep_removes_exactly_expired
    (now : Z) (w : WriteOutcome) (st : Limiter) (identifier : string) (r : ClientRecord) :
  requestStore (snd (sweep now w st)) !! identifier = Some r
  <-> requestStore st !! identifier = Some r /\ now - firstRequest r <= WINDOW_MS.
Proof.
  rewrite sweep_store, map_lookup_filter_Some. unfold expired. simpl.
  split; intros [Hget Hin]; (split; [exact Hget | lia]).
Qed.

(** X9. A sweep that finds no elapsed window leaves the state as it is and
    does not write the file; a sweep that removes a record writes the file,
    which then holds the swept map. *)
Theorem sweep_writes_only_after_removal (now : Z) (w : WriteOutcome) (st : Limiter) :
  ((forall identifier r,
       requestStore st !! identifier = Some r -> now - firstRequest r <= WINDOW_MS) ->
   snd (sweep now w st) = st)
  /\ ((exists identifier r,
         requestStore st !! identifier = Some r /\ now - firstRequest r > WINDOW_MS) ->
      rateLimitFile (snd (sweep now Written st))
      = Saved (requestStore (snd (sweep now Written st)))).
Proof.
  split.
  - intros Hnone. unfold sweep.
    assert (Hempty : filter (fun kv => expired now kv.2) (requestStore st) = ∅).
    { apply map_empty. intros i. apply map_lookup_filter_None.
      destruct (requestStore st !! i) as [r|] eqn:Hi; [right | left; reflexivity].
      intros x [= <-]. specialize (Hnone i r Hi). unfold expired. simpl. lia. }
    rewrite Hempty, map_size_empty. simpl.
    rewrite map_filter_id; [destruct st; reflexivity|].
    intros i r Hi. specialize (Hnone i r Hi). unfold expired. simpl. lia.
  - intros (i & r & Hi & Hexp). unfold sweep.
    assert (Hsize : size (filter (fun kv => expired now kv.2) (requestStore st)) <> 0%nat).
    { apply map_size_ne_0_lookup_2 with i. exists r.
      apply map_lookup_filter_Some. split; [exact Hi|]. unfold expired. simpl. lia. }
    destruct (size _) as [|n]; [congruence|]. reflexivity.
Qed.

Lemma sweep_witness :
  snd (sweep 2000 Written fullState) = fullState
  /\ rateLimitFile (snd (sweep 43201001 Written fullState)) = Saved ∅.
Proof.
  destruct (sweep_writes_only_after_removal 2000 Written fullState) as [Hkeep _].
  destruct (sweep_writes_only_after_removal 43201001 Written fullState) as [_ Hwrite].
  split.
  - apply Hkeep. intros identifier r Hr. unfold fullState in Hr. simpl in Hr.
    apply lookup_singleton_Some in Hr as [_ <-]. vm_compute. discriminate.
  - rewrite Hwrite.
    + vm_compute. reflexivity.
    + exists (identifierOf sampleRequest), fullRecord.
      split; vm_compute; reflexivity.
Defined.

(** ** The file *)










(** ** The hash of the user agent *)

Lemma toInt32_range z : - 2 ^ 31 <= toInt32 z < 2 ^ 31.
Proof.
  unfold toInt32. pose proof (Z.mod_pos_bound z (2 ^ 32)) as Hm.
  destruct (z mod 2 ^ 32 <? 2 ^ 31) eqn:Hlt;
    [apply Z.ltb_lt in Hlt | apply Z.ltb_ge in Hlt]; lia.
Qed.

Lemma toInt32_shifted z k : toInt32 (z + k * 2 ^ 32) = toInt32 z.
Proof. unfold toInt32. now rewrite Z_mod_plus_full. Qed.

Lemma toInt32_offset z : exists k, toInt32 z = z + k * 2 ^ 32.
Proof.
  unfold toInt32. pose proof (Z.div_mod z (2 ^ 32)) as Hd.
  destruct (z mod 2 ^ 32 <? 2 ^ 31).
  - exists (- (z / 2 ^ 32)). lia.
  - exists (- (z / 2 ^ 32) - 1). lia.
Qed.

Lemma toInt32_idempotent z : toInt32 (toInt32 z) = toInt32 z.
Proof.
  destruct (toInt32_offset z) as [k Hk].
  transitivity (toInt32 (z + k * 2 ^ 32)); [now rewrite <- Hk | apply toInt32_shifted].
Qed.

(** One round of the loop multiplies by 31 and adds the code unit, in
    32-bit two's complement. *)
Lemma hashStep_times_31 a c :
  hashStep (toInt32 a) c = toInt32 (31 * a + Z.of_N (N_of_ascii c)).
Proof.
  unfold hashStep. rewrite Z.land_diag, !toInt32_idempotent.
  rewrite Z.shiftl_mul_pow2 by lia.
  destruct (toInt32_offset a) as [k Hk].
  destruct (toInt32_offset (toInt32 a * 2 ^ 5)) as [k' Hk'].
  rewrite Hk'. rewrite Hk.
  replace ((a + k * 2 ^ 32) * 2 ^ 5 + k' * 2 ^ 32 - (a + k * 2 ^ 32) + Z.of_N (N_of_ascii c))
    with (31 * a + Z.of_N (N_of_ascii c) + (31 * k + k') * 2 ^ 32) by lia.
  apply toInt32_shifted.
Qed.

Lemma fold_hashStep_poly l a :
  fold_left hashStep l (toInt32 a)
  = toInt32 (fold_left (fun h c => 31 * h + Z.of_N (N_of_ascii c)) l a).
Proof.
  revert a. induction l as [|c l IH]; intros a; simpl; [reflexivity|].
  rewrite hashStep_times_31. apply IH.
Qed.

Lemma hash_value str :
  fold_left hashStep (list_ascii_of_string str) 0 = toInt32 (poly31 str).
Proof.
  unfold poly31. rewrite <- fold_hashStep_poly. reflexivity.
Qed.

Lemma digitValue_digit36 d : 0 <= d < 36 -> digitValue (digit36 d) = d.
Proof.
  intros Hd. unfold digitValue, digit36.
  destruct (d <? 10) eqn:Hlt; [apply Z.ltb_lt in Hlt | apply Z.ltb_ge in Hlt];
    rewrite N_ascii_embedding by lia; rewrite Z2N.id by lia.
  - replace (48 + d <? 58) with true by (symmetry; apply Z.ltb_lt; lia). lia.
  - replace (87 + d <? 58) with false by (symmetry; apply Z.ltb_ge; lia). lia.
Qed.

Lemma isDigit36_digit36 d : 0 <= d < 36 -> isDigit36 (digit36 d) = true.
Proof.
  intros Hd. unfold isDigit36, digit36.
  destruct (d <? 10) eqn:Hlt; [apply Z.ltb_lt in Hlt | apply Z.ltb_ge in Hlt];
    rewrite N_ascii_embedding by lia.
  - apply orb_true_iff. left. apply andb_true_iff. split; apply N.leb_le; lia.
  - apply orb_true_iff. right. apply andb_true_iff. split; apply N.leb_le; lia.
Qed.

(** With enough fuel [digits36] writes the base-36 numeral of [n] in front
    of [acc]. *)
Lemma digits36_value fuel : forall n acc,
  0 <= n < 2 ^ Z.of_nat fuel ->
  fold_left (fun v c => 36 * v + digitValue c)
    (list_ascii_of_string (digits36 fuel n acc)) 0
  = fold_left (fun v c => 36 * v + digitValue c) (list_ascii_of_string acc) n.
Proof.
  induction fuel as [|fuel IH]; intros n acc Hn.
  - simpl in *. replace n with 0 by lia. reflexivity.
  - cbn [digits36].
    pose proof (Z.div_mod n 36) as Hd. pose proof (Z.mod_pos_bound n 36) as Hm.
    assert (Hq : 0 <= n / 36) by (apply Z.div_pos; lia).
    destruct (n / 36 =? 0) eqn:Hz.
    + apply Z.eqb_eq in Hz. simpl. rewrite digitValue_digit36 by lia.
      f_equal. lia.
    + rewrite IH.
      * simpl. rewrite digitValue_digit36 by lia. f_equal. lia.
      * split; [exact Hq|]. apply Z.div_lt_upper_bound; [lia|].
        rewrite Nat2Z.inj_succ, Z.pow_succ_r in Hn by lia. lia.
Qed.

Lemma digits36_chars fuel : forall n acc,
  0 <= n ->
  Forall (fun c => isDigit36 c = true) (list_ascii_of_string acc) ->
  Forall (fun c => isDigit36 c = true) (list_ascii_of_string (digits36 fuel n acc)).
Proof.
  induction fuel as [|fuel IH]; intros n acc Hn Hacc; [exact Hacc|].
  cbn [digits36].
  pose proof (Z.mod_pos_bound n 36) as Hm.
  assert (Hacc' : Forall (fun c => isDigit36 c = true)
                    (list_ascii_of_string (String (digit36 (n mod 36)) acc))).
  { simpl. constructor; [apply isDigit36_digit36; lia | exact Hacc]. }
  destruct (n / 36 =? 0); [exact Hacc'|].
  apply IH; [apply Z.div_pos; lia | exact Hacc'].
Qed.

Lemma digits36_not_empty fuel : forall n acc,
  acc <> EmptyString -> digits36 fuel n acc <> EmptyString.
Proof.
  induction fuel as [|fuel IH]; intros n acc Hacc; [exact Hacc|].
  cbn [digits36]. destruct (n / 36 =? 0); [discriminate | apply IH; discriminate].
Qed.

(** [toString36] and [parse36] are inverse on the numbers printed. *)
Lemma parse36_toString36 n : 0 <= n -> parse36 (toString36 n) = n.
Proof.
  intros Hn. unfold parse36, toString36. rewrite digits36_value; [reflexivity|].
  split; [exact Hn|].
  rewrite Nat2Z.inj_succ, Z2Nat.id by apply Z.log2_nonneg.
  destruct (Z.eq_dec n 0) as [->|Hne]; [reflexivity|].
  apply Z.log2_spec. lia.
Qed.

(** X12. [hashString] prints, in base 36 with the digits 0-9 and a-z, the
    absolute value of the 32-bit two's complement value of the sum of the
    code units weighted by descending powers of 31; that value is at most
    [2^31]. *)
Theorem hashString_is_polynomial_hash (str : string) :
  parse36 (hashString str) = Z.abs (toInt32 (poly31 str))
  /\ 0 <= parse36 (hashString str) <= 2 ^ 31
  /\ hashString str <> EmptyString
  /\ Forall (fun c => isDigit36 c = true) (list_ascii_of_string (hashString str)).
Proof.
  unfold hashString. rewrite hash_value.
  pose proof (toInt32_range (poly31 str)) as Hr.
  rewrite parse36_toString36 by apply Z.abs_nonneg.
  split; [reflexivity|]. split; [lia|]. split.
  - unfold toString36. cbn [digits36].
    destruct (_ =? 0); [discriminate | apply digits36_not_empty; discriminate].
  - apply digits36_chars; [apply Z.abs_nonneg | constructor].
Qed.

End RateLimiterMore.

(** * Further properties of the matchers *)

Module AiServiceMore.
Import AiService AiServiceSpec.

(** ** Case and surrounding white space *)

Lemma lowerChar_idempotent c : JS.lowerChar (JS.lowerChar c) = JS.lowerChar c.
Proof. destruct c as [[] [] [] [] [] [] [] []]; reflexivity. Qed.

Lemma isWhiteSpace_lowerChar c : JS.isWhiteSpace (JS.lowerChar c) = JS.isWhiteSpace c.
Proof. destruct c as [[] [] [] [] [] [] [] []]; reflexivity. Qed.

Lemma toLowerCase_idempotent s : JS.toLowerCase (JS.toLowerCase s) = JS.toLowerCase s.
Proof.
  induction s as [|c s IH]; simpl; [reflexivity|].
  now rewrite lowerChar_idempotent, IH.
Qed.

Lemma toLowerCase_trimStart s :
  JS.toLowerCase (JS.trimStart s) = JS.trimStart (JS.toLowerCase s).
Proof.
  induction s as [|c s IH]; simpl; [reflexivity|].
  rewrite isWhiteSpace_lowerChar. destruct (JS.isWhiteSpace c); [exact IH | reflexivity].
Qed.

Lemma toLowerCase_trimEnd s :
  JS.toLowerCase (JS.trimEnd s) = JS.trimEnd (JS.toLowerCase s).
Proof.
  induction s as [|c s IH]; simpl; [reflexivity|].
  rewrite <- IH, isWhiteSpace_lowerChar.
  destruct (JS.trimEnd s) as [|c' t]; simpl; [|reflexivity].
  destruct (JS.isWhiteSpace c); reflexivity.
Qed.

Lemma toLowerCase_trim s : JS.toLowerCase (JS.trim s) = JS.trim (JS.toLowerCase s).
Proof. unfold JS.trim. now rewrite toLowerCase_trimEnd, toLowerCase_trimStart. Qed.

Lemma trimStart_starts s : JS.startsWithWhiteSpace (JS.trimStart s) = false.
Proof.
  induction s as [|c s IH]; simpl; [reflexivity|].
  destruct (JS.isWhiteSpace c) eqn:Hc; [exact IH | simpl; exact Hc].
Qed.

Lemma trimStart_fixed s : JS.startsWithWhiteSpace s = false -> JS.trimStart s = s.
Proof. destruct s as [|c s]; simpl; [reflexivity|]. now intros ->. Qed.

Lemma trimEnd_starts s :
  JS.startsWithWhiteSpace s = false -> JS.startsWithWhiteSpace (JS.trimEnd s) = false.
Proof.
  destruct s as [|c s]; simpl; [reflexivity|]. intros Hc.
  destruct (JS.trimEnd s); simpl; [rewrite Hc; simpl; exact Hc | exact Hc].
Qed.

Lemma trimEnd_idempotent s : JS.trimEnd (JS.trimEnd s) = JS.trimEnd s.
Proof.
  induction s as [|c s IH]; simpl; [reflexivity|].
  destruct (JS.trimEnd s) as [|c' t] eqn:Ht.
  - destruct (JS.isWhiteSpace c) eqn:Hc; simpl; [reflexivity | now rewrite Hc].
  - change (JS.trimEnd (String c (String c' t))) with
      (match JS.trimEnd (String c' t) with
       | EmptyString => if JS.isWhiteSpace c then EmptyString else String c EmptyString
       | u => String c u
       end).
    rewrite IH. reflexivity.
Qed.

Lemma trim_idempotent s : JS.trim (JS.trim s) = JS.trim s.
Proof.
  unfold JS.trim.
  rewrite (trimStart_fixed (JS.trimEnd (JS.trimStart s)))
    by apply trimEnd_starts, trimStart_starts.
  apply trimEnd_idempotent.
Qed.

Lemma normalized_trim query : normalized (JS.trim query) = normalized query.
Proof. unfold normalized. now rewrite toLowerCase_trim, trim_idempotent. Qed.

Lemma normalized_toLowerCase query :
  normalized (JS.toLowerCase query) = normalized query.
Proof. unfold normalized. now rewrite toLowerCase_idempotent. Qed.

Lemma matchers_by_normalized faqs siteMap q1 q2 :
  normalized q1 = normalized q2 ->
  matchFAQ faqs q1 = matchFAQ faqs q2 /\ keywordMatch siteMap q1 = keywordMatch siteMap q2.
Proof.
  unfold matchFAQ, keywordMatch. fold (normalized q1) (normalized q2).
  intros ->. split; reflexivity.
Qed.

(** X13. Both matchers give the same result for a query, for the query
    with its surrounding white space removed and for the query in lower
    case: they see a query only through its lower-cased, trimmed form. *)
Theorem matchers_ignore_case_and_padding
    (faqs : list FaqEntry) (siteMap : list NavItem) (query : string) :
  matchFAQ faqs (JS.trim query) = matchFAQ faqs query
  /\ matchFAQ faqs (JS.toLowerCase query) = matchFAQ faqs query
  /\ keywordMatch siteMap (JS.trim query) = keywordMatch siteMap query
  /\ keywordMatch siteMap (JS.toLowerCase query) = keywordMatch siteMap query.
Proof.
  destruct (matchers_by_normalized faqs siteMap _ _ (normalized_trim query)) as [H1 H2].
  destruct (matchers_by_normalized faqs siteMap _ _ (normalized_toLowerCase query))
    as [H3 H4].
  auto.
Qed.

Lemma contribution_toLowerCase q queryWords k :
  contribution q queryWords (JS.toLowerCase k) = contribution q queryWords k.
Proof.
  unfold contribution, keywordStep. rewrite toLowerCase_idempotent.
  repeat match goal with
         | |- context [if ?b then _ else _] => destruct b
         end; reflexivity.
Qed.

(** ** The keyword loop as a sum *)

Lemma contribution_cases q queryWords k :
  contribution q queryWords k = 0 \/ 10 <= contribution q queryWords k.
Proof.
  unfold contribution, keywordStep.
  destruct (String.eqb q (JS.toLowerCase k)); [right; simpl; lia|].
  destruct (JS.includes q (JS.toLowerCase k) || JS.includes (JS.toLowerCase k) q);
    [right; simpl; lia|].
  destruct (forallb _ _ && (1 <? length (JS.split (JS.toLowerCase k)))%nat) eqn:Hmulti.
  - right. simpl. apply andb_true_iff in Hmulti as [_ Hlen].
    apply Nat.ltb_lt in Hlen. lia.
  - destruct ((length (JS.split (JS.toLowerCase k)) =? 1)%nat && _);
      [right; simpl; lia | left; reflexivity].
Qed.

Lemma keywordStep_collects q queryWords score matched k :
  keywordStep q queryWords (score, matched) k
  = (score + contribution q queryWords k,
     (matched ++ (if 0 <? contribution q queryWords k then [k] else []))%list).
Proof.
  unfold contribution, keywordStep.
  destruct (String.eqb q (JS.toLowerCase k)); [reflexivity|].
  destruct (JS.includes q (JS.toLowerCase k) || JS.includes (JS.toLowerCase k) q);
    [reflexivity|].
  destruct (forallb _ _ && (1 <? length (JS.split (JS.toLowerCase k)))%nat) eqn:Hmulti.
  - apply andb_true_iff in Hmulti as [_ Hlen]. apply Nat.ltb_lt in Hlen.
    cbn [fst]. rewrite Z.add_0_l.
    replace (0 <? 30 * Z.of_nat (length (JS.split (JS.toLowerCase k)))) with true
      by (symmetry; apply Z.ltb_lt; lia).
    reflexivity.
  - destruct ((length (JS.split (JS.toLowerCase k)) =? 1)%nat && _); simpl.
    + reflexivity.
    + now rewrite Z.add_0_r, app_nil_r.
Qed.

Lemma fold_keywordStep_collects q queryWords keywords : forall score matched,
  fold_left (keywordStep q queryWords) keywords (score, matched)
  = (score + contributionSum q queryWords keywords,
     (matched ++ contributing q queryWords keywords)%list).
Proof.
  induction keywords as [|k keywords IH]; intros score matched; cbn [fold_left].
  - unfold contributionSum, contributing. simpl. now rewrite Z.add_0_r, app_nil_r.
  - rewrite keywordStep_collects, IH.
    unfold contributionSum, contributing. cbn [fold_right List.filter].
    f_equal; [lia|].
    rewrite <- app_assoc. f_equal.
    destruct (0 <? contribution q queryWords k); reflexivity.
Qed.

(** X14. The keyword loop of an item returns as score the sum of what
    each keyword adds, and as [matchedKeywords] the keywords that add
    something, in their order and with their original spelling; a keyword
    adds either nothing or at least 10, and its letter case does not
    matter. *)
Theorem keyword_loop_sums_and_collects
    (q : string) (queryWords keywords : list string) :
  scoreKeywords q queryWords keywords
  = (contributionSum q queryWords keywords, contributing q queryWords keywords)
  /\ (forall k, contribution q queryWords k = 0 \/ 10 <= contribution q queryWords k)
  /\ (forall k, contribution q queryWords (JS.toLowerCase k) = contribution q queryWords k)
  /\ (contributing q queryWords keywords = [] <-> contributionSum q queryWords keywords = 0).
Proof.
  split; [unfold scoreKeywords; now rewrite fold_keywordStep_collects|].
  split; [apply contribution_cases|].
  split; [apply contribution_toLowerCase|].
  induction keywords as [|k keywords IH]; simpl; [tauto|].
  assert (Hrest : 0 <= contributionSum q queryWords keywords).
  { clear. induction keywords as [|k' ks IH']; simpl; [lia|].
    destruct (contribution_cases q queryWords k'); lia. }
  unfold contributing in *. simpl.
  destruct (contribution_cases q queryWords k) as [Hk|Hk].
  - rewrite Hk. simpl. rewrite IH. lia.
  - replace (0 <? contribution q queryWords k) with true
      by (symmetry; apply Z.ltb_lt; lia).
    split; [discriminate | lia].
Qed.

Lemma contributionSum_cases q queryWords keywords :
  contributionSum q queryWords keywords = 0 \/ 10 <= contributionSum q queryWords keywords.
Proof.
  induction keywords as [|k keywords IH]; [left; reflexivity|].
  unfold contributionSum in *. cbn [fold_right].
  destruct (contribution_cases q queryWords k); lia.
Qed.

Lemma faqScore_cases query keywords :
  faqScore query keywords = 0 \/ 10 <= faqScore query keywords.
Proof.
  unfold faqScore, scoreKeywords. rewrite fold_keywordStep_collects. simpl.
  apply contributionSum_cases.
Qed.

Lemma navScore_cases query keywords :
  navScore query keywords = 0 \/ 10 <= navScore query keywords.
Proof.
  unfold navScore, scoreKeywords. rewrite fold_keywordStep_collects. simpl.
  apply contributionSum_cases.
Qed.

(** The match a matcher returns is built from one of the items. *)
Lemma matchFAQ_result faqs query m :
  matchFAQ faqs query = Some m ->
  exists i faq, faqs !! i = Some faq /\ m = faqMake query faq /\ 10 <= fm_score m.
Proof.
  pose proof (AiServiceFacts.matchFAQ_loop faqs query) as H.
  unfold matchFAQ. fold (normalized query).
  destruct (fold_left _ faqs (None, 0)) as [best hi].
  unfold firstBest in H. simpl in *. intros ->.
  destruct H as (i & faq & Hi & -> & _ & Hfl & _).
  exists i, faq. unfold faqMake, faqScore in *. simpl. auto.
Qed.

Lemma keywordMatch_result siteMap query m :
  keywordMatch siteMap query = Some m ->
  exists i item, siteMap !! i = Some item /\ m = navMake query item /\ 10 <= nm_score m.
Proof.
  pose proof (AiServiceFacts.keywordMatch_loop siteMap query) as H.
  unfold keywordMatch. fold (normalized query).
  destruct (fold_left _ siteMap (None, 0)) as [best hi].
  unfold firstBest in H. simpl in *.
  destruct best as [m0|]; [|discriminate].
  destruct H as (i & item & Hi & -> & -> & _).
  destruct (10 <=? navScore query (nav_keywords item)) eqn:Hten; [|discriminate].
  intros [= <-]. apply Z.leb_le in Hten.
  exists i, item. unfold navMake, navScore in *. simpl. auto.
Qed.

(** X15. A matcher returns nothing exactly when every item scores 0: the
    thresholds of 10 never turn away an item with a positive score.  A
    returned match has [matched = true] and a non-empty [matchedKeywords]
    made of keywords of the matched item. *)
Theorem no_match_iff_nothing_scores
    (faqs : list FaqEntry) (siteMap : list NavItem) (query : string) :
  (matchFAQ faqs query = None
   <-> forall j faq, faqs !! j = Some faq -> faqScore query (faq_keywords faq) = 0)
  /\ (keywordMatch siteMap query = None
      <-> forall j item, siteMap !! j = Some item -> navScore query (nav_keywords item) = 0)
  /\ (forall m, matchFAQ faqs query = Some m ->
        fm_matched m = true /\ fm_matchedKeywords m <> []
        /\ forall k, In k (fm_matchedKeywords m) -> In k (faq_keywords (fm_faq m)))
  /\ (forall m, keywordMatch siteMap query = Some m ->
        nm_matched m = true /\ nm_matchedKeywords m <> []).
Proof.
  split; [|split; [|split]].
  - split.
    + intros Hnone j faq Hj.
      pose proof (AiServiceFacts.matchFAQ_selects query faqs) as Hsel.
      rewrite Hnone in Hsel. specialize (Hsel j faq Hj). simpl in Hsel.
      destruct (faqScore_cases query (faq_keywords faq)); lia.
    + intros Hzero.
      apply (AiServiceFacts.selectsFirstHighest_none _ _ _ _ _
               (AiServiceFacts.matchFAQ_selects query faqs)).
      intros j faq Hj. rewrite (Hzero j faq Hj). lia.
  - split.
    + intros Hnone j item Hj.
      pose proof (AiServiceFacts.keywordMatch_selects query siteMap) as Hsel.
      rewrite Hnone in Hsel. specialize (Hsel j item Hj). simpl in Hsel.
      destruct (navScore_cases query (nav_keywords item)); lia.
    + intros Hzero.
      apply (AiServiceFacts.selectsFirstHighest_none _ _ _ _ _
               (AiServiceFacts.keywordMatch_selects query siteMap)).
      intros j item Hj. rewrite (Hzero j item Hj). lia.
  - intros m Hm. apply matchFAQ_result in Hm as (i & faq & _ & -> & Hten).
    unfold faqMake, scoreKeywords in *. rewrite fold_keywordStep_collects in *.
    simpl in *. split; [reflexivity|]. split.
    + intros Hnil.
      assert (Hz : contributionSum (normalized query)
                     (contentWords stopWordsFAQ (normalized query)) (faq_keywords faq) = 0).
      { clear Hten. revert Hnil. generalize (faq_keywords faq) as ks.
        induction ks as [|k ks IH]; [reflexivity|].
        unfold contributing, contributionSum in *. cbn [List.filter fold_right].
        destruct (contribution_cases (normalized query)
                    (contentWords stopWordsFAQ (normalized query)) k) as [Hk|Hk].
        - rewrite Hk. simpl. intros H. rewrite (IH H). reflexivity.
        - replace (0 <? _) with true by (symmetry; apply Z.ltb_lt; lia). discriminate. }
      lia.
    + intros k Hk. unfold contributing in Hk. apply filter_In in Hk. tauto.
  - intros m Hm. apply keywordMatch_result in Hm as (i & item & _ & -> & Hten).
    unfold navMake, scoreKeywords in *. rewrite fold_keywordStep_collects in *.
    simpl in *. split; [reflexivity|].
    intros Hnil.
    assert (Hz : contributionSum (normalized query)
                   (contentWords stopWordsNav (normalized query)) (nav_keywords item) = 0).
    { clear Hten. revert Hnil. generalize (nav_keywords item) as ks.
      induction ks as [|k ks IH]; [reflexivity|].
      unfold contributing, contributionSum in *. cbn [List.filter fold_right].
      destruct (contribution_cases (normalized query)
                  (contentWords stopWordsNav (normalized query)) k) as [Hk|Hk].
      - rewrite Hk. simpl. intros H. rewrite (IH H). reflexivity.
      - replace (0 <? _) with true by (symmetry; apply Z.ltb_lt; lia). discriminate. }
    lia.
Qed.

(** ** The blank query *)

Lemma blank_contribution queryWords k :
  50 <= contribution EmptyString queryWords k.
Proof.
  unfold contribution, keywordStep.
  destruct (String.eqb EmptyString (JS.toLowerCase k)); [simpl; lia|].
  rewrite JSFacts.includes_empty, orb_true_r. simpl. lia.
Qed.

(** X16. For a query made of white space only, every keyword counts as
    contained in the query and adds at least 50, so [matchFAQ] returns a
    match as soon as one FAQ entry has a keyword. *)
Theorem blank_query_matches_any_keyword
    (faqs : list FaqEntry) (query : string) (j : nat) (faq : FaqEntry) :
  normalized query = EmptyString ->
  faqs !! j = Some faq ->
  faq_keywords faq <> [] ->
  (forall keywords, 50 * Z.of_nat (length keywords) <= faqScore query keywords)
  /\ exists m, matchFAQ faqs query = Some m /\ 50 <= fm_score m.
Proof.
  intros Hblank Hj Hkw.
  assert (Hscore : forall keywords,
             50 * Z.of_nat (length keywords) <= faqScore query keywords).
  { intros keywords. unfold faqScore, scoreKeywords.
    rewrite fold_keywordStep_collects, Hblank. simpl.
    induction keywords as [|k ks IH]; [simpl; lia|].
    unfold contributionSum in *. cbn [fold_right length].
    pose proof (blank_contribution (contentWords stopWordsFAQ EmptyString) k). lia. }
  split; [exact Hscore|].
  pose proof (AiServiceFacts.matchFAQ_selects query faqs) as Hsel.
  destruct (matchFAQ faqs query) as [m|].
  - exists m. split; [reflexivity|].
    destruct Hsel as (i & it & _ & _ & Hsc & _ & Hall & _).
    specialize (Hall j faq Hj). specialize (Hscore (faq_keywords faq)).
    destruct (faq_keywords faq); [congruence|]. simpl length in Hscore. lia.
  - exfalso. specialize (Hsel j faq Hj). specialize (Hscore (faq_keywords faq)).
    simpl in Hsel. destruct (faq_keywords faq); [congruence|]. simpl length in Hscore. lia.
Qed.

Lemma blank_query_witness :
  exists m, matchFAQ [narxEntry] "   " = Some m /\ 50 <= fm_score m.
Proof.
  apply (blank_query_matches_any_keyword [narxEntry] "   " 0%nat narxEntry).
  - reflexivity.
  - reflexivity.
  - discriminate.
Defined.

(** ** Where a decision can point *)

Lemma detectNavigation_ok faqs siteMap query oracle :
  exists decision, fst (run (detectNavigation faqs siteMap query) oracle) = Ok decision.
Proof.
  unfold run, detectNavigation, invoke, bind, enter, ret.
  destruct (matchFAQ faqs query); simpl; [eauto|].
  destruct (keywordMatch siteMap query); simpl; [eauto|].
  rewrite AiServiceFacts.aiMatch_run.
  match goal with |- context [ai_matched ?r] => destruct (ai_matched r) end; simpl; eauto.
Qed.

Lemma detectNavigation_cases
    (faqs : list FaqEntry) (siteMap : list NavItem) (query : string)
    (oracle : ChatRequest -> Completion) :
  exists decision,
    fst (run (detectNavigation faqs siteMap query) oracle) = Ok decision
    /\ match decision with
       | FAQ m => In (fm_faq m) faqs /\ 10 <= fm_score m
       | NAVIGATION url intent _ =>
           exists item, In item siteMap /\ nav_url item = url
                        /\ intent = Some (nav_intent item)
       | NOT_FOUND => matchFAQ faqs query = None /\ keywordMatch siteMap query = None
       end.
Proof.
  unfold run, detectNavigation, invoke, bind, enter, ret.
  destruct (matchFAQ faqs query) as [m|] eqn:Hfaq; simpl.
  - exists (FAQ m). split; [reflexivity|].
    apply matchFAQ_result in Hfaq as (i & faq & Hi & -> & Hten).
    split; [|exact Hten]. simpl.
    apply list_elem_of_In. eapply list_elem_of_lookup_2, Hi.
  - destruct (keywordMatch siteMap query) as [m|] eqn:Hkw; simpl.
    + eexists. split; [reflexivity|].
      apply keywordMatch_result in Hkw as (i & item & Hi & -> & _).
      exists item. simpl. split; [|auto].
      apply list_elem_of_In. eapply list_elem_of_lookup_2, Hi.
    + rewrite AiServiceFacts.aiMatch_run.
      destruct (oracle _) as [reason | [content|]]; simpl;
        try (exists NOT_FOUND; split; [reflexivity | split; reflexivity]).
      destruct (String.eqb (JS.trim content) "NOT_FOUND"); simpl;
        [exists NOT_FOUND; split; [reflexivity | split; reflexivity]|].
      destruct (List.find _ siteMap) as [foundItem|] eqn:Hfind; simpl;
        [|exists NOT_FOUND; split; [reflexivity | split; reflexivity]].
      apply List.find_some in Hfind as [Hin Hurl]. apply String.eqb_eq in Hurl.
      eexists. split; [reflexivity|]. exists foundItem. auto.
Qed.

(** X17. [detectNavigation] always ends in a decision and never in a
    thrown error.  A NAVIGATION decision, whether it comes from the keyword
    matcher or from the AI classifier, carries the url and the intent of an
    entry of the site map; a FAQ decision carries an entry of the FAQ list
    with a score of at least 10. *)
Theorem decisions_point_into_the_data
    (faqs : list FaqEntry) (siteMap : list NavItem) (query : string)
    (oracle : ChatRequest -> Completion) :
  exists decision,
    fst (run (detectNavigation faqs siteMap query) oracle) = Ok decision
    /\ match decision with
       | FAQ m => In (fm_faq m) faqs /\ 10 <= fm_score m
       | NAVIGATION url intent _ =>
           exists item, In item siteMap /\ nav_url item = url
                        /\ intent = Some (nav_intent item)
       | NOT_FOUND => matchFAQ faqs query = None /\ keywordMatch siteMap query = None
       end.
Proof. apply detectNavigation_cases. Qed.

Lemma sectionsFrom_length siteMap : forall idx,
  length (sectionsFrom idx siteMap) = length siteMap.
Proof.
  induction siteMap as [|item rest IH]; intros idx; simpl; [reflexivity|].
  now rewrite IH.
Qed.

Lemma sectionsFrom_lookup siteMap : forall idx j,
  sectionsFrom idx siteMap !! j
  = (fun item => (S (idx + j), nav_intent item, nav_url item,
                  firstn 5 (nav_keywords item))) <$> siteMap !! j.
Proof.
  induction siteMap as [|item rest IH]; intros idx j; [reflexivity|].
  destruct j as [|j]; simpl.
  - now rewrite Nat.add_0_r.
  - rewrite IH. simpl. now rewrite Nat.add_succ_r.
Qed.

Lemma sectionsFrom_imap siteMap :
  sectionsFrom 0 siteMap
  = imap (fun i item => (S i, nav_intent item, nav_url item, firstn 5 (nav_keywords item)))
      siteMap.
Proof.
  apply list_eq. intros i.
  now rewrite (sectionsFrom_lookup siteMap 0%nat), list_lookup_imap.
Qed.

(** X18. [aiMatch] consults the classifier through one request only: the
    raw query together with, for every entry of the site map once and in
    order, its position counted from 1, its intent, its url and its first
    five keywords at most.  The result of [aiMatch] is the result it would
    give if the classifier answered every request the way it answers that
    one, so two classifiers that agree on that request give the same
    result. *)
Theorem classifier_sees_every_section
    (siteMap : list NavItem) (query : string)
    (oracle : ChatRequest -> Completion) (log : list Stage) :
  let request :=
    mkChatRequest query
      (imap (fun i item =>
               (S i, nav_intent item, nav_url item, firstn 5 (nav_keywords item)))
         siteMap) in
  aiMatch siteMap query oracle log
    = aiMatch siteMap query (fun _ => oracle request) log
  /\ (forall oracle',
        oracle' request = oracle request ->
        aiMatch siteMap query oracle' log = aiMatch siteMap query oracle log)
  /\ length (cr_sections request) = length siteMap
  /\ (forall i section,
        cr_sections request !! i = Some section ->
        exists item,
          siteMap !! i = Some item
          /\ section = (S i, nav_intent item, nav_url item, firstn 5 (nav_keywords item))
          /\ (length section.2 <= 5)%nat).
Proof.
  cbv zeta. rewrite <- sectionsFrom_imap.
  split; [now rewrite !AiServiceFacts.aiMatch_run|].
  split; [intros oracle' Hsame; now rewrite !AiServiceFacts.aiMatch_run, Hsame|].
  split; [apply sectionsFrom_length|].
  intros i section. simpl. rewrite (sectionsFrom_lookup siteMap 0%nat).
  destruct (siteMap !! i) as [item|]; [|discriminate].
  intros [= <-]. exists item. split; [reflexivity|]. split; [reflexivity|].
  simpl. apply firstn_le_length.
Qed.

(** Two classifiers that differ on that request only can give different
    results: the request is really the one that decides. *)
Example classifier_request_decides :
  fst (aiMatch [aboutItem] "salom"
         (fun r => match cr_sections r with
                   | [(1%nat, _, _, ["haqida"; "kompaniya"])] => Resolved (Some "/about")
                   | _ => Rejected "unexpected request"
                   end) [])
  = Ok (mkAiResult "/about" (Some "Biz haqimizda") true).
Proof. reflexivity. Qed.

End AiServiceMore.

(** * Properties of the routes *)

Module AssistantFacts.
Import AiService RateLimiter Assistant.

(** ** Validation of the query *)

Lemma acceptable_cases (v : JsValue) :
  (exists query, v = JsString query
                 /\ (1 <= String.length (JS.trim query) <= 500)%nat)
  \/ ~ acceptable v.
Proof.
  destruct v as [query|]; [|right; intros (q & H & _); discriminate].
  destruct (le_lt_dec 1 (String.length (JS.trim query))) as [H1|H1];
    [destruct (le_lt_dec (String.length (JS.trim query)) 500) as [H2|H2]|].
  - left. eauto.
  - right. intros (q & [= <-] & Hq). lia.
  - right. intros (q & [= <-] & Hq). lia.
Qed.

Lemma validated_accepts query sv trace :
  (1 <= String.length (JS.trim query) <= 500)%nat ->
  validated (Some (JsString query)) sv trace = (Ok (inr (JS.trim query)), trace).
Proof.
  intros [Hlo Hhi]. unfold validated.
  destruct (String.eqb query EmptyString) eqn:He.
  - apply String.eqb_eq in He. subst query. simpl in Hlo. lia.
  - destruct (String.length (JS.trim query) =? 0)%nat eqn:H0.
    + apply Nat.eqb_eq in H0. lia.
    + destruct (500 <? String.length (JS.trim query))%nat eqn:H5.
      * apply Nat.ltb_lt in H5. lia.
      * reflexivity.
Qed.

Lemma validated_rejects v sv trace :
  ~ acceptable v ->
  exists text,
    validated (Some v) sv trace = (Ok (inl (mkResponse 400 (ErrorBody text None))), trace).
Proof.
  intros Hbad. unfold validated. destruct v as [query|]; [|eauto].
  destruct (String.eqb query EmptyString); [eauto|].
  destruct (String.length (JS.trim query) =? 0)%nat eqn:H0; [eauto|].
  destruct (500 <? String.length (JS.trim query))%nat eqn:H5; [eauto|].
  exfalso. apply Hbad. exists query. split; [reflexivity|].
  apply Nat.eqb_neq in H0. apply Nat.ltb_ge in H5. lia.
Qed.

(** The two generators always return a text. *)
Lemma generateChatResponse_ok query decision sv trace :
  exists text trace',
    generateChatResponse query decision sv trace = (Ok text, trace').
Proof.
  unfold generateChatResponse, htry, hbind, replyContent, hret.
  destruct decision; [eauto| |]; destruct (responder sv _) as [reason|[content|]]; eauto.
Qed.

Lemma generateGeneralChat_ok query sv trace :
  exists text,
    generateGeneralChat query sv trace
    = (Ok text, (trace ++ [Asked (mkReplyRequest GeneralPrompt query 7 100)])%list).
Proof.
  unfold generateGeneralChat, htry, hbind, replyContent, hret.
  destruct (responder sv _) as [reason|[content|]]; eauto.
Qed.

Lemma classify_detectNavigation faqs siteMap query sv trace :
  exists decision,
    classify (detectNavigation faqs siteMap query) sv trace
    = (Ok decision,
       (trace ++ map Entered
                   (snd (run (detectNavigation faqs siteMap query) (classifier sv))))%list)
    /\ fst (run (detectNavigation faqs siteMap query) (classifier sv)) = Ok decision.
Proof.
  destruct (AiServiceMore.detectNavigation_ok faqs siteMap query (classifier sv))
    as [decision Hd].
  exists decision. split; [|exact Hd].
  unfold classify. unfold run in *.
  destruct (detectNavigation faqs siteMap query (classifier sv) []) as [r log].
  simpl in *. now rewrite Hd.
Qed.

(** What [/chat] answers to an accepted query, given the decision. *)
Lemma chatRoute_accepted faqs siteMap req now st sv query :
  http_body req = Some (JsString query) ->
  (1 <= String.length (JS.trim query) <= 500)%nat ->
  exists decision text trace,
    fst (run (detectNavigation faqs siteMap (JS.trim query)) (classifier sv)) = Ok decision
    /\ fst (generateChatResponse (JS.trim query) decision sv
              (map Entered (snd (run (detectNavigation faqs siteMap (JS.trim query))
                                   (classifier sv))))) = Ok text
    /\ chatRoute faqs siteMap req now st sv []
       = (Ok (mkResponse 200
                (match decision with
                 | FAQ faq =>
                     ChatBody text TypeFAQ
                       (Some (faq_id (fm_faq faq), faq_question (fm_faq faq),
                              faq_category (fm_faq faq)))
                       None
                 | NAVIGATION url intent _ =>
                     if negb (String.eqb url "NOT_FOUND")
                     then ChatBody text TypeNAVIGATION None (Some (url, intent))
                     else ChatBody text TypeCHAT None None
                 | NOT_FOUND => ChatBody text TypeCHAT None None
                 end (rateLimitOf (fst (getRateLimitStatus (http_client req) now st))))),
          trace).
Proof.
  intros Hbody Hlen.
  destruct (classify_detectNavigation faqs siteMap (JS.trim query) sv [])
    as (decision & Hclass & Hdec).
  destruct (generateChatResponse_ok (JS.trim query) decision sv
              (map Entered (snd (run (detectNavigation faqs siteMap (JS.trim query))
                                   (classifier sv)))))
    as (text & trace & Hgen).
  exists decision, text, trace. split; [exact Hdec|]. split; [now rewrite Hgen|].
  unfold chatRoute, htry, hbind. rewrite Hbody, (validated_accepts query sv [] Hlen).
  rewrite Hclass. simpl app. rewrite Hgen.
  destruct decision as [faq|url intent lexical|]; try reflexivity.
  destruct (negb (String.eqb url "NOT_FOUND")); reflexivity.
Qed.

Lemma statusFollowsBody_200 query response trace :
  (1 <= String.length (JS.trim query) <= 500)%nat ->
  res_status response = 200 ->
  statusFollowsBody (Some (JsString query)) (Ok response, trace).
Proof.
  intros Hlen Hstatus. exists response, trace. split; [reflexivity|].
  rewrite Hstatus.
  assert (Hacc : acceptable (JsString query)) by (exists query; auto).
  split; [split; discriminate|].
  split; [split; [discriminate | intros (v & [= <-] & Hv); contradiction]|].
  split; [split; [eauto | reflexivity]|].
  intros Hne. congruence.
Qed.

Lemma statusFollowsBody_400 v text :
  ~ acceptable v ->
  statusFollowsBody (Some v) (Ok (mkResponse 400 (ErrorBody text None)), []).
Proof.
  intros Hbad. eexists _, _. split; [reflexivity|]. simpl.
  split; [split; discriminate|].
  split; [split; [eauto | reflexivity]|].
  split; [split; [discriminate | intros (v' & [= <-] & Hv); contradiction]|].
  reflexivity.
Qed.

Lemma statusFollowsBody_500 text :
  statusFollowsBody None (Ok (mkResponse 500 (ErrorBody "Internal server error" text)), []).
Proof.
  eexists _, _. split; [reflexivity|]. simpl.
  split; [split; reflexivity|].
  split; [split; [discriminate | intros (v & Hv & _); discriminate]|].
  split; [split; [discriminate | intros (v & Hv & _); discriminate]|].
  reflexivity.
Qed.

(** X19. [/chat] and [/talk] always answer, and with one of three status
    codes: 500 exactly when the request has no body, 400 exactly when the
    body's query is not a string whose trimmed form has 1 to 500
    characters, and 200 otherwise.  A request answered 400 or 500 has
    reached neither the classifier nor the reply generator. *)
Theorem chat_and_talk_status_codes
    (faqs : list FaqEntry) (siteMap : list NavItem) (req : HttpRequest)
    (now : Z) (st : Limiter) (sv : Services) :
  statusFollowsBody (http_body req) (chatRoute faqs siteMap req now st sv [])
  /\ statusFollowsBody (http_body req) (talkRoute req now st sv []).
Proof.
  destruct (http_body req) as [v|] eqn:Hbody.
  - destruct (acceptable_cases v) as [(query & -> & Hlen) | Hbad].
    + split.
      * destruct (chatRoute_accepted faqs siteMap req now st sv query Hbody Hlen)
          as (decision & text & trace & _ & _ & Hrun).
        rewrite Hrun. now apply statusFollowsBody_200.
      * unfold talkRoute, htry, hbind.
        rewrite Hbody, (validated_accepts query sv [] Hlen).
        destruct (generateGeneralChat_ok (JS.trim query) sv []) as [text Hgen].
        rewrite Hgen. now apply statusFollowsBody_200.
    + destruct (validated_rejects v sv [] Hbad) as [text Hval].
      split; unfold chatRoute, talkRoute, htry, hbind; rewrite Hbody, Hval;
        now apply statusFollowsBody_400.
  - split; unfold chatRoute, talkRoute, htry, hbind; rewrite Hbody; simpl;
      apply statusFollowsBody_500.
Qed.

(** ** The decision behind a response *)

Lemma run_detect_faq faqs siteMap query oracle m :
  matchFAQ faqs query = Some m ->
  run (detectNavigation faqs siteMap query) oracle = (Ok (FAQ m), [StageFAQ]).
Proof.
  intros Hfaq. unfold run, detectNavigation, invoke, AiService.bind, enter, AiService.ret.
  now rewrite Hfaq.
Qed.

Lemma run_detect_keyword faqs siteMap query oracle m :
  matchFAQ faqs query = None ->
  keywordMatch siteMap query = Some m ->
  run (detectNavigation faqs siteMap query) oracle
  = (Ok (NAVIGATION (nm_url m) (Some (nm_intent m))
           (Some (nm_score m, nm_matchedKeywords m))),
     [StageFAQ; StageKeyword]).
Proof.
  intros Hfaq Hkw. unfold run, detectNavigation, invoke, AiService.bind, enter, AiService.ret.
  rewrite Hfaq. simpl. now rewrite Hkw.
Qed.

Lemma run_detect_rejected faqs siteMap query oracle :
  matchFAQ faqs query = None ->
  keywordMatch siteMap query = None ->
  (forall c, exists reason, oracle c = Rejected reason) ->
  run (detectNavigation faqs siteMap query) oracle
  = (Ok NOT_FOUND, [StageFAQ; StageKeyword; StageAI]).
Proof.
  intros Hfaq Hkw Hdown. unfold run, detectNavigation, invoke, AiService.bind, enter, AiService.ret.
  rewrite Hfaq. cbn iota beta. rewrite Hkw. cbn iota beta.
  rewrite AiServiceFacts.aiMatch_run.
  destruct (Hdown (mkChatRequest query (sectionsFrom 0 siteMap))) as [reason ->].
  reflexivity.
Qed.

Lemma classify_run {A} (c : M A) sv trace :
  classify c sv trace
  = (fst (run c (classifier sv)), (trace ++ map Entered (snd (run c (classifier sv))))%list).
Proof. unfold classify, run. destruct (c (classifier sv) []). reflexivity. Qed.

(** X20. When the FAQ matcher matches an accepted query, [/chat] answers
    with the stored answer of the matched entry and its id, question and
    category, having entered the FAQ stage only: neither the classifier
    nor the reply generator is consulted. *)
Theorem faq_answer_needs_no_model
    (faqs : list FaqEntry) (siteMap : list NavItem) (req : HttpRequest)
    (now : Z) (st : Limiter) (sv : Services) (query : string) (m : FaqMatch) :
  http_body req = Some (JsString query) ->
  (1 <= String.length (JS.trim query) <= 500)%nat ->
  matchFAQ faqs query = Some m ->
  chatRoute faqs siteMap req now st sv []
  = (Ok (mkResponse 200
           (ChatBody (faq_answer (fm_faq m)) TypeFAQ
              (Some (faq_id (fm_faq m), faq_question (fm_faq m), faq_category (fm_faq m)))
              None
              (rateLimitOf (fst (getRateLimitStatus (http_client req) now st))))),
     [Entered StageFAQ]).
Proof.
  intros Hbody Hlen Hfaq.
  destruct (AiServiceMore.matchers_by_normalized faqs siteMap _ _
              (AiServiceMore.normalized_trim query)) as [Htrim _].
  rewrite <- Htrim in Hfaq.
  unfold chatRoute, htry, hbind. rewrite Hbody, (validated_accepts query sv [] Hlen).
  rewrite classify_run, (run_detect_faq _ _ _ _ _ Hfaq). reflexivity.
Qed.

Lemma faq_answer_witness :
  chatRoute [narxEntry] [narxItem] (chatRequestOf " Narx ") 2000 fullState servicesDown []
  = (Ok (mkResponse 200
           (ChatBody "Narxlar sahifasida" TypeFAQ (Some ("1", "Narxlar", "umumiy")) None
              (mkRateLimitInfo 0 (Some 43201000)))),
     [Entered StageFAQ]).
Proof.
  apply (faq_answer_needs_no_model [narxEntry] [narxItem] (chatRequestOf " Narx ")
           2000 fullState servicesDown " Narx "
           (mkFaqMatch narxEntry true 100 ["narx"])).
  - reflexivity.
  - vm_compute. lia.
  - reflexivity.
Defined.

(** X21. With the hosted model failing on every call, [/chat] still
    answers 200 to every accepted query: a FAQ match with the stored
    answer, a keyword match with the fixed text "Bu yerga bosing" and the
    url of the matched section, and anything else as CHAT with the
    apology. *)
Theorem chat_degrades_when_model_is_down
    (faqs : list FaqEntry) (siteMap : list NavItem) (req : HttpRequest)
    (now : Z) (st : Limiter) (sv : Services) (query : string) :
  http_body req = Some (JsString query) ->
  (1 <= String.length (JS.trim query) <= 500)%nat ->
  (forall c, exists reason, classifier sv c = Rejected reason) ->
  (forall r, exists reason, responder sv r = Rejected reason) ->
  fst (chatRoute faqs siteMap req now st sv [])
  = Ok (mkResponse 200
          (match matchFAQ faqs query, keywordMatch siteMap query with
           | Some m, _ =>
               ChatBody (faq_answer (fm_faq m)) TypeFAQ
                 (Some (faq_id (fm_faq m), faq_question (fm_faq m),
                        faq_category (fm_faq m))) None
           | None, Some m =>
               if String.eqb (nm_url m) "NOT_FOUND"
               then ChatBody apology TypeCHAT None None
               else ChatBody "Bu yerga bosing" TypeNAVIGATION None
                      (Some (nm_url m, Some (nm_intent m)))
           | None, None => ChatBody apology TypeCHAT None None
           end (rateLimitOf (fst (getRateLimitStatus (http_client req) now st))))).
Proof.
  intros Hbody Hlen Hclass Hreply.
  destruct (AiServiceMore.matchers_by_normalized faqs siteMap _ _
              (AiServiceMore.normalized_trim query)) as [Hfaq Hkw].
  rewrite <- Hfaq, <- Hkw.
  unfold chatRoute, htry, hbind. rewrite Hbody, (validated_accepts query sv [] Hlen).
  rewrite classify_run.
  destruct (matchFAQ faqs (JS.trim query)) as [m|] eqn:Hm.
  - rewrite (run_detect_faq _ _ _ _ _ Hm). reflexivity.
  - destruct (keywordMatch siteMap (JS.trim query)) as [m|] eqn:Hk.
    + rewrite (run_detect_keyword _ _ _ _ _ Hm Hk). cbn [fst snd].
      unfold generateChatResponse, htry, hbind, replyContent, hret, isNavigating.
      destruct (Hreply (mkReplyRequest
                          (AssistantPrompt
                             (if negb (String.eqb (nm_url m) "NOT_FOUND")
                              then Some (Some (nm_intent m)) else None))
                          (JS.trim query) 3
                          (if negb (String.eqb (nm_url m) "NOT_FOUND") then 30 else 100)))
        as [reason ->].
      destruct (String.eqb (nm_url m) "NOT_FOUND"); reflexivity.
    + rewrite (run_detect_rejected _ _ _ _ Hm Hk Hclass). cbn [fst snd].
      unfold generateChatResponse, htry, hbind, replyContent, hret, isNavigating.
      destruct (Hreply (mkReplyRequest (AssistantPrompt None) (JS.trim query) 3 100))
        as [reason ->].
      reflexivity.
Qed.

Lemma chat_degrades_witness :
  fst (chatRoute [] [narxItem] (chatRequestOf "narx qancha") 2000 fullState servicesDown [])
  = Ok (mkResponse 200
          (ChatBody "Bu yerga bosing" TypeNAVIGATION None
             (Some ("/narxlar", Some "Narxlar")) (mkRateLimitInfo 0 (Some 43201000)))).
Proof.
  rewrite (chat_degrades_when_model_is_down [] [narxItem] (chatRequestOf "narx qancha")
             2000 fullState servicesDown "narx qancha").
  - reflexivity.
  - reflexivity.
  - vm_compute. lia.
  - intros c. exists "ECONNREFUSED". reflexivity.
  - intros r. exists "ECONNREFUSED". reflexivity.
Defined.

(** ** The other routes *)

Lemma navigateRoute_accepted faqs siteMap req now st sv query :
  http_body req = Some (JsString query) ->
  query <> EmptyString ->
  exists decision,
    fst (run (detectNavigation faqs siteMap query) (classifier sv)) = Ok decision
    /\ navigateRoute faqs siteMap req now st sv []
       = (Ok (mkResponse 200
                (NavigateBody
                   match decision with
                   | NAVIGATION url intent _ =>
                       if String.eqb url "NOT_FOUND" then None else Some (url, intent)
                   | FAQ _ | NOT_FOUND => None
                   end
                   (rateLimitOf (fst (getRateLimitStatus (http_client req) now st))))),
          map Entered (snd (run (detectNavigation faqs siteMap query) (classifier sv)))).
Proof.
  intros Hbody Hne.
  destruct (AiServiceMore.detectNavigation_ok faqs siteMap query (classifier sv))
    as [decision Hd].
  exists decision. split; [exact Hd|].
  unfold navigateRoute, htry, hbind. rewrite Hbody.
  apply String.eqb_neq in Hne. rewrite Hne.
  rewrite classify_run, Hd. simpl app.
  destruct decision as [faq|url intent lexical|]; try reflexivity.
  destruct (String.eqb url "NOT_FOUND"); reflexivity.
Qed.

(** X22. [/navigate] answers NOT_FOUND to every query that the FAQ
    matcher matches, without looking at the site map: the FAQ stage is the
    only stage entered, even when a keyword of a site section would match
    the query as well. *)
Theorem navigate_hides_faq_matches
    (faqs : list FaqEntry) (siteMap : list NavItem) (req : HttpRequest)
    (now : Z) (st : Limiter) (sv : Services) (query : string) (m : FaqMatch) :
  http_body req = Some (JsString query) ->
  query <> EmptyString ->
  matchFAQ faqs query = Some m ->
  navigateRoute faqs siteMap req now st sv []
  = (Ok (mkResponse 200
           (NavigateBody None
              (rateLimitOf (fst (getRateLimitStatus (http_client req) now st))))),
     [Entered StageFAQ]).
Proof.
  intros Hbody Hne Hfaq.
  destruct (navigateRoute_accepted faqs siteMap req now st sv query Hbody Hne)
    as (decision & Hd & Hrun).
  rewrite Hrun. rewrite (run_detect_faq _ _ _ _ _ Hfaq) in *.
  simpl in Hd. injection Hd as <-. reflexivity.
Qed.

Lemma navigate_hides_witness :
  keywordMatch [narxItem] "narx" = Some (mkNavMatch "/narxlar" "Narxlar" true 100 ["narx"])
  /\ navigateRoute [narxEntry] [narxItem] (chatRequestOf "narx") 2000 fullState
       servicesDown []
     = (Ok (mkResponse 200 (NavigateBody None (mkRateLimitInfo 0 (Some 43201000)))),
        [Entered StageFAQ]).
Proof.
  split; [reflexivity|].
  apply (navigate_hides_faq_matches [narxEntry] [narxItem] (chatRequestOf "narx")
           2000 fullState servicesDown "narx" (mkFaqMatch narxEntry true 100 ["narx"])).
  - reflexivity.
  - discriminate.
  - reflexivity.
Defined.

(** X23. [/navigate] answers 500 exactly when the request has no body and
    400 exactly when the query is not a non-empty string; it neither trims
    the query nor bounds its length.  A target it returns is never
    "NOT_FOUND" and is the url of an entry of the site map, returned with
    that entry's intent. *)
Theorem navigate_status_and_targets
    (faqs : list FaqEntry) (siteMap : list NavItem) (req : HttpRequest)
    (now : Z) (st : Limiter) (sv : Services) :
  exists response trace,
    navigateRoute faqs siteMap req now st sv [] = (Ok response, trace)
    /\ (res_status response = 500 <-> http_body req = None)
    /\ (res_status response = 400
        <-> http_body req = Some JsOther \/ http_body req = Some (JsString EmptyString))
    /\ (res_status response = 200
        <-> exists query, http_body req = Some (JsString query) /\ query <> EmptyString)
    /\ (forall url intent info,
          res_body response = NavigateBody (Some (url, intent)) info ->
          url <> "NOT_FOUND"
          /\ exists item, In item siteMap /\ nav_url item = url
                          /\ intent = Some (nav_intent item)).
Proof.
  destruct (http_body req) as [[query|]|] eqn:Hbody.
  - destruct (String.eqb query EmptyString) eqn:He.
    + apply String.eqb_eq in He. subst query.
      eexists _, _. split.
      { unfold navigateRoute, htry, hbind. rewrite Hbody. reflexivity. }
      simpl. split; [split; discriminate|].
      split; [split; [auto | reflexivity]|].
      split; [split; [discriminate | intros (q & [= <-] & Hq); congruence]|].
      intros; discriminate.
    + apply String.eqb_neq in He.
      destruct (navigateRoute_accepted faqs siteMap req now st sv query Hbody He)
        as (decision & Hd & Hrun).
      eexists _, _. split; [exact Hrun|]. simpl.
      split; [split; discriminate|].
      split; [split; [discriminate | intros [H|H]; [discriminate | congruence]]|].
      split; [split; [eauto | reflexivity]|].
      intros url intent info Hres.
      destruct (AiServiceMore.detectNavigation_cases faqs siteMap query (classifier sv))
        as (decision' & Hd' & Hcase).
      rewrite Hd in Hd'. injection Hd' as <-.
      destruct decision as [faq|url' intent' lexical|]; try discriminate.
      destruct (String.eqb url' "NOT_FOUND") eqn:Hnf; [discriminate|].
      injection Hres as <- <- _. apply String.eqb_neq in Hnf. split; [exact Hnf|].
      exact Hcase.
  - eexists _, _. split.
    { unfold navigateRoute, htry, hbind. rewrite Hbody. reflexivity. }
    simpl. split; [split; discriminate|].
    split; [split; [auto | reflexivity]|].
    split; [split; [discriminate | intros (q & Hq & _); discriminate]|].
    intros; discriminate.
  - eexists _, _. split.
    { unfold navigateRoute, htry, hbind. rewrite Hbody. reflexivity. }
    simpl. split; [split; reflexivity|].
    split; [split; [discriminate | intros [H|H]; discriminate]|].
    split; [split; [discriminate | intros (q & Hq & _); discriminate]|].
    intros; discriminate.
Qed.

(** X24. [/talk] answers an accepted query without entering any stage of
    the classification: its only call is one request for a reply, with the
    general prompt and the trimmed query, and the message is the trimmed
    reply or, when that call fails, the apology. *)
Theorem talk_skips_classification
    (req : HttpRequest) (now : Z) (st : Limiter) (sv : Services) (query : string) :
  http_body req = Some (JsString query) ->
  (1 <= String.length (JS.trim query) <= 500)%nat ->
  talkRoute req now st sv []
  = (Ok (mkResponse 200
           (ChatBody
              match responder sv (mkReplyRequest GeneralPrompt (JS.trim query) 7 100) with
              | Resolved (Some content) => JS.trim content
              | Resolved None | Rejected _ => apology
              end
              TypeCHAT None None
              (rateLimitOf (fst (getRateLimitStatus (http_client req) now st))))),
     [Asked (mkReplyRequest GeneralPrompt (JS.trim query) 7 100)]).
Proof.
  intros Hbody Hlen.
  unfold talkRoute, htry, hbind. rewrite Hbody, (validated_accepts query sv [] Hlen).
  unfold generateGeneralChat, htry, hbind, replyContent, hret.
  destruct (responder sv _) as [reason|[content|]]; reflexivity.
Qed.

Lemma talk_witness :
  talkRoute (chatRequestOf " salom ") 2000 fullState (servicesSaying "NOT_FOUND" " Salom! ") []
  = (Ok (mkResponse 200
           (ChatBody "Salom!" TypeCHAT None None (mkRateLimitInfo 0 (Some 43201000)))),
     [Asked (mkReplyRequest GeneralPrompt "salom" 7 100)]).
Proof.
  apply (talk_skips_classification (chatRequestOf " salom ") 2000 fullState
           (servicesSaying "NOT_FOUND" " Salom! ") " salom ").
  - reflexivity.
  - vm_compute. lia.
Defined.

(** ** The middleware in front of the routes *)

Lemma refused_keeps_state client now w st a b c :
  fst (rateLimiter client now w st) = TooManyRequests a b c ->
  snd (rateLimiter client now w st) = st.
Proof.
  unfold rateLimiter, RateLimiter.bind, storeGet, RateLimiter.ret.
  destruct (requestStore st !! identifierOf client) as [r|].
  - destruct (WINDOW_MS <? now - firstRequest r); [destruct w; discriminate|].
    destruct (MAX_REQUESTS <=? count r); [reflexivity|].
    cbn [count]. destruct (Z.rem (count r + 1) 5 =? 0); [destruct w|]; discriminate.
  - destruct w; discriminate.
Qed.

(** X25. Every request to the four routes of the router, [/health]
    included, passes the rate limiter first.  A refused request gets the
    429 answer of the limiter, reaches no handler and leaves the state
    unchanged; any other request is counted, whatever its route and whatever
    its handler answers: [remaining], read at the arrival time, is one less
    afterwards. *)
Theorem router_counts_before_it_routes
    (faqs : list FaqEntry) (siteMap : list NavItem) (route : Route)
    (req : HttpRequest) (arrival : Z) (w : WriteOutcome) (later : Z)
    (sv : Services) (st : Limiter) :
  let result := assistantRouter faqs siteMap route req arrival w later sv st in
  match fst (rateLimiter (http_client req) arrival w st) with
  | TooManyRequests reset reported hoursLeft =>
      result = ((Ok (mkResponse 429 (RateLimitExceededBody reset reported hoursLeft)), []),
                None, st)
  | Next headers =>
      snd (fst result) = headers
      /\ remaining (fst (getRateLimitStatus (http_client req) arrival (snd result)))
         = remaining (fst (getRateLimitStatus (http_client req) arrival st)) - 1
  end.
Proof.
  cbv zeta. unfold assistantRouter.
  pose proof (refused_keeps_state (http_client req) arrival w st) as Hkeep.
  pose proof (RateLimiterMore.own_record_after_request (http_client req) arrival w st)
    as Hown.
  pose proof (RateLimiterMore.verdict_from_record (http_client req) arrival w st)
    as Hverdict.
  destruct (rateLimiter (http_client req) arrival w st) as [verdict st'].
  simpl in *. destruct verdict as [headers | a b c].
  - split; [reflexivity|]. cbn [fst snd].
    rewrite !RateLimiterMore.status_from_record, Hown. unfold MAX_REQUESTS in *.
    destruct (requestStore st !! identifierOf (http_client req)) as [r|].
    + destruct (WINDOW_MS <? arrival - firstRequest r) eqn:Hexp.
      * cbn [firstRequest]. rewrite Z.sub_diag. reflexivity.
      * destruct (30 <=? count r) eqn:Hfull; [discriminate|].
        apply Z.leb_gt in Hfull. cbn [firstRequest count]. rewrite Hexp. simpl. lia.
    + cbn [firstRequest]. rewrite Z.sub_diag. reflexivity.
  - now rewrite (Hkeep a b c eq_refl).
Qed.

(** The health route of the router, asked by a client whose quota is used
    up, and asked by a new client. *)
Example health_route_is_rate_limited :
  fst (assistantRouter [] [] GetHealth (mkHttp sampleRequest None) 2000 Written 2001
         servicesDown fullState)
  = ((Ok (mkResponse 429 (RateLimitExceededBody 43201000 0 12)), []), None)
  /\ requestStore
       (snd (assistantRouter [] [] GetHealth (mkHttp sampleRequest None) 50 Written 51
               servicesDown (startup NoFile)))
       !! identifierOf sampleRequest
     = Some (mkRecord 1 50 50).
Proof. split; vm_compute; reflexivity. Qed.

(** The rate-limit information of a body is the status read by the
    handler. *)
Lemma handler_info faqs siteMap route req later sv st response trace info :
  match route with
  | PostChat => chatRoute faqs siteMap req later st
  | PostNavigate => navigateRoute faqs siteMap req later st
  | PostTalk => talkRoute req later st
  | GetHealth => healthRoute later
  end sv [] = (Ok response, trace) ->
  rateLimitOfBody (res_body response) = Some info ->
  info = rateLimitOf (fst (getRateLimitStatus (http_client req) later st)).
Proof.
  destruct route.
  - destruct (http_body req) as [v|] eqn:Hbody.
    + destruct (acceptable_cases v) as [(query & -> & Hlen) | Hbad].
      * destruct (chatRoute_accepted faqs siteMap req later st sv query Hbody Hlen)
          as (decision & text & trace' & _ & _ & Hrun).
        rewrite Hrun. intros [= <- _].
        destruct decision as [faq|url intent lexical|]; simpl;
          [| destruct (negb (String.eqb url "NOT_FOUND")); simpl |];
          now intros [= <-].
      * destruct (validated_rejects v sv [] Hbad) as [text Hval].
        unfold chatRoute, htry, hbind. rewrite Hbody, Hval.
        intros [= <- _]. discriminate.
    + unfold chatRoute, htry, hbind. rewrite Hbody. simpl.
      intros [= <- _]. discriminate.
  - destruct (http_body req) as [[query|]|] eqn:Hbody.
    + destruct (String.eqb query EmptyString) eqn:He.
      * unfold navigateRoute, htry, hbind. rewrite Hbody, He.
        intros [= <- _]. discriminate.
      * apply String.eqb_neq in He.
        destruct (navigateRoute_accepted faqs siteMap req later st sv query Hbody He)
          as (decision & _ & Hrun).
        rewrite Hrun. intros [= <- _]. simpl. now intros [= <-].
    + unfold navigateRoute, htry, hbind. rewrite Hbody.
      intros [= <- _]. discriminate.
    + unfold navigateRoute, htry, hbind. rewrite Hbody. simpl.
      intros [= <- _]. discriminate.
  - destruct (http_body req) as [v|] eqn:Hbody.
    + destruct (acceptable_cases v) as [(query & -> & Hlen) | Hbad].
      * unfold talkRoute, htry, hbind.
        rewrite Hbody, (validated_accepts query sv [] Hlen).
        destruct (generateGeneralChat_ok (JS.trim query) sv []) as [text Hgen].
        rewrite Hgen. intros [= <- _]. simpl. now intros [= <-].
      * destruct (validated_rejects v sv [] Hbad) as [text Hval].
        unfold talkRoute, htry, hbind. rewrite Hbody, Hval.
        intros [= <- _]. discriminate.
    + unfold talkRoute, htry, hbind. rewrite Hbody. simpl.
      intros [= <- _]. discriminate.
  - unfold healthRoute, hret. intros [= <- _]. discriminate.
Qed.

(** X26. When the middleware has set the rate-limit headers and the
    handler reads the status before the reset time, with no other request
    handled in between, the [rateLimit] object of the JSON body repeats the
    headers: the same remaining count and the same reset time. *)
Theorem body_repeats_headers
    (faqs : list FaqEntry) (siteMap : list NavItem) (route : Route)
    (req : HttpRequest) (arrival : Z) (w : WriteOutcome) (later : Z)
    (sv : Services) (st st' : Limiter)
    (response : Response) (trace : list Event) (h : Headers) (info : RateLimitInfo) :
  assistantRouter faqs siteMap route req arrival w later sv st
    = ((Ok response, trace), Some h, st') ->
  rateLimitOfBody (res_body response) = Some info ->
  later <= xRateLimitReset h ->
  info_remaining info = xRateLimitRemaining h
  /\ info_resetAt info = Some (xRateLimitReset h).
Proof.
  unfold assistantRouter.
  pose proof (RateLimiterMore.own_record_after_request (http_client req) arrival w st)
    as Hown.
  pose proof (RateLimiterMore.verdict_from_record (http_client req) arrival w st)
    as Hverdict.
  destruct (rateLimiter (http_client req) arrival w st) as [verdict st1].
  simpl in Hown, Hverdict.
  destruct verdict as [headers | a b c]; [|discriminate].
  intros Hrun Hinfo Hlater.
  assert (Hh : headers = Some h) by congruence.
  assert (Hst : st1 = st') by congruence. subst headers st1.
  assert (Hhandler : match route with
                     | PostChat => chatRoute faqs siteMap req later st'
                     | PostNavigate => navigateRoute faqs siteMap req later st'
                     | PostTalk => talkRoute req later st'
                     | GetHealth => healthRoute later
                     end sv [] = (Ok response, trace)) by congruence.
  rewrite (handler_info _ _ _ _ _ _ _ _ _ _ Hhandler Hinfo).
  unfold rateLimitOf. simpl.
  rewrite RateLimiterMore.status_from_record, Hown. unfold MAX_REQUESTS in *.
  destruct (requestStore st !! identifierOf (http_client req)) as [r|]; [|discriminate].
  destruct (WINDOW_MS <? arrival - firstRequest r); [discriminate|].
  destruct (30 <=? count r) eqn:Hfull; [discriminate|].
  apply Z.leb_gt in Hfull. injection Hverdict as ->. simpl in *.
  destruct (WINDOW_MS <? later - firstRequest r) eqn:Hexp.
  - apply Z.ltb_lt in Hexp. lia.
  - simpl. split; [lia | reflexivity].
Qed.

Lemma body_repeats_witness :
  assistantRouter [narxEntry] [] PostChat (chatRequestOf "narx") 90 Written 95
    servicesDown afterTwoRequests
  = ((Ok (mkResponse 200
            (ChatBody "Narxlar sahifasida" TypeFAQ (Some ("1", "Narxlar", "umumiy")) None
               (mkRateLimitInfo 27 (Some 43200050)))),
      [Entered StageFAQ]),
     Some (mkHeaders 30 27 43200050),
     snd (rateLimiter sampleRequest 90 Written afterTwoRequests))
  /\ 27 = 27 /\ Some 43200050 = Some 43200050.
Proof.
  assert (Hrun : assistantRouter [narxEntry] [] PostChat (chatRequestOf "narx") 90 Written 95
                   servicesDown afterTwoRequests
                 = ((Ok (mkResponse 200
                           (ChatBody "Narxlar sahifasida" TypeFAQ
                              (Some ("1", "Narxlar", "umumiy")) None
                              (mkRateLimitInfo 27 (Some 43200050)))),
                     [Entered StageFAQ]),
                    Some (mkHeaders 30 27 43200050),
                    snd (rateLimiter sampleRequest 90 Written afterTwoRequests)))
    by (vm_compute; reflexivity).
  split; [exact Hrun|].
  apply (body_repeats_headers _ _ _ _ _ _ _ _ _ _ _ _ _
           (mkRateLimitInfo 27 (Some 43200050)) Hrun).
  - reflexivity.
  - vm_compute. discriminate.
Defined.

End AssistantFacts.
